(** * AI-Review-Analyzer: context ingestion and semantic retrieval

    A shallow embedding of the pieces of the repository that carry the
    algorithmic content:

    - [src/utils/textProcessing.ts]: [splitTextIntoChunks],
      [estimateTokenCount], [createChunkTitle];
    - [src/utils/db.ts]: [cosineSimilarity], [findSimilarContexts];
    - [src/pages/api/upload.ts] and [src/pages/api/scrape.ts]: the part of
      each handler that turns extracted text into context records, the
      extraction of text from an uploaded file ([readFileContent]) and
      the choice between the static scraper and the browser;
    - [src/pages/api/analyze-review.ts]: retrieval and the context given
      to the language model;
    - [src/components/ContextUpload.tsx]: the validation of a file and
      what the list shows for it.

    The file system, the parsing libraries, the network, the embedding
    provider and the language model are records of functions whose
    results the code only inspects.

    JavaScript numbers that hold indices and sizes are integers and are
    modelled in [Z]; numbers that hold embedding coordinates and
    similarities are IEEE 754 binary64 values and are modelled by the
    primitive floats of the kernel.  Strings are lists of code units. *)

From Stdlib Require Import ZArith Ascii String List Bool Lia.
From Stdlib Require Import QArith Qround.
From Stdlib Require Import Permutation Sorted.
From Stdlib Require Import PrimFloat.
From Stdlib Require FloatAxioms SpecFloat.
Import ListNotations.

Set Implicit Arguments.
Open Scope Z_scope.

(* ================================================================== *)
(** ** The fragment of the JavaScript library the code relies on       *)
(* ================================================================== *)

Module JS.

(** A string is its sequence of code units. *)
Definition str := list ascii.

Definition lit (s : string) : str := list_ascii_of_string s.

Definition len {A : Type} (s : list A) : Z := Z.of_nat (length s).

(** [s.slice(start, end)], for strings and arrays alike: a negative
    index counts from the end, both indices are clamped to the
    sequence. *)
Definition rel_index (n i : Z) : Z :=
  if i <? 0 then Z.max (n + i) 0 else Z.min i n.

Definition slice {A : Type} (s : list A) (start end_ : Z) : list A :=
  let from := rel_index (len s) start in
  let to := rel_index (len s) end_ in
  firstn (Z.to_nat (to - from)) (skipn (Z.to_nat from) s).

(** [s.startsWith(p)]. *)
Fixpoint startsWith (s p : str) : bool :=
  match p, s with
  | [], _ => true
  | _ :: _, [] => false
  | a :: p', b :: s' => Ascii.eqb a b && startsWith s' p'
  end.

(** [s.lastIndexOf(p, pos)]: the greatest index [k <= pos] at which [p]
    occurs in [s], or [-1].  [pos] is clamped to [0 .. len s - len p]. *)
Fixpoint lastIndexOf_down (s p : str) (k : nat) : Z :=
  if startsWith (skipn k s) p then Z.of_nat k
  else match k with
       | O => -1
       | S k' => lastIndexOf_down s p k'
       end.

Definition lastIndexOf (s p : str) (pos : Z) : Z :=
  let top := Z.min (Z.max pos 0) (len s - len p) in
  if top <? 0 then -1 else lastIndexOf_down s p (Z.to_nat top).

(** White space as [String.prototype.trim] sees it, among the code
    units below 256: TAB, LF, VT, FF, CR, SPACE and NBSP. *)
Definition isWhiteSpace (c : ascii) : bool :=
  let n := N_of_ascii c in
  ((9 <=? n) && (n <=? 13) || (n =? 32) || (n =? 160))%N.

Fixpoint trimStart (s : str) : str :=
  match s with
  | c :: s' => if isWhiteSpace c then trimStart s' else s
  | [] => []
  end.

Definition trim (s : str) : str := rev' (trimStart (rev' (trimStart s))).

(** [s.split("\n")[0]]: the text before the first line feed. *)
Fixpoint firstLine (s : str) : str :=
  match s with
  | [] => []
  | c :: s' => if Ascii.eqb c "010"%char then [] else c :: firstLine s'
  end.

(** [s.substring(0, n)] for [n >= 0]. *)
Definition substring0 (s : str) (n : nat) : str := firstn n s.

(** What a [throw] carries: an [Error] object with its message, or any
    other value. *)
Inductive thrown : Type :=
| ErrorObj (message : str)
| OtherValue.

(** The outcome of a call: a value, or an exception. *)
Inductive outcome (A : Type) : Type :=
| Ok (a : A)
| Throw (e : thrown).
Arguments Ok {A} a.
Arguments Throw {A} e.

Definition bind {A B : Type} (m : outcome A) (k : A -> outcome B) : outcome B :=
  match m with
  | Ok a => k a
  | Throw e => Throw e
  end.

(** [xs.map(f)] where [f] may throw: the first exception aborts the
    traversal. *)
Fixpoint mapM {A B : Type} (f : A -> outcome B) (xs : list A) : outcome (list B) :=
  match xs with
  | [] => Ok []
  | x :: xs' => bind (f x) (fun y => bind (mapM f xs') (fun ys => Ok (y :: ys)))
  end.

End JS.

(* ================================================================== *)
(** ** [src/utils/textProcessing.ts]                                   *)
(* ================================================================== *)

Module TextProcessing.
Import JS.

Definition LF2 : str := ["010"%char; "010"%char].
Definition DOT_SP : str := lit ". ".
Definition SP : str := lit " ".

(** The end index chosen for the chunk that starts at [startIndex]:
    the target [startIndex + chunkSize], moved back to a paragraph,
    sentence or word break when the target is inside the text. *)
Definition chunkEnd (text : str) (chunkSize startIndex : Z) : Z :=
  let endIndex := startIndex + chunkSize in
  if endIndex <? len text then
    let paragraphBreak := lastIndexOf text LF2 endIndex in
    let sentenceBreak := lastIndexOf text DOT_SP endIndex in
    let wordBreak := lastIndexOf text SP endIndex in
    if (startIndex <? paragraphBreak) && (endIndex - 200 <? paragraphBreak)
    then paragraphBreak + 2
    else if (startIndex <? sentenceBreak) && (endIndex - 100 <? sentenceBreak)
    then sentenceBreak + 2
    else if startIndex <? wordBreak
    then wordBreak + 1
    else endIndex
  else endIndex.

(** The start index of the next chunk: [endIndex - overlap], replaced by
    [endIndex] when that is not positive or equals [endIndex]. *)
Definition nextStart (overlap endIndex : Z) : Z :=
  let startIndex := endIndex - overlap in
  if (startIndex <=? 0) || (endIndex =? startIndex) then endIndex
  else startIndex.

(** The state of the [while] loop: the start index and the chunks
    pushed so far. *)
Record loopState : Type := mkLoop { startIndex : Z; chunks : list str }.

Definition loopGuard (text : str) (st : loopState) : bool :=
  startIndex st <? len text.

(** One iteration of the loop body. *)
Definition loopBody (text : str) (chunkSize overlap : Z) (st : loopState) : loopState :=
  let endIndex := chunkEnd text chunkSize (startIndex st) in
  mkLoop (nextStart overlap endIndex)
         (chunks st ++ [slice text (startIndex st) endIndex]).

(** The state after at most [n] iterations (fewer when the guard
    fails earlier). *)
Fixpoint iterate (n : nat) (text : str) (chunkSize overlap : Z) (st : loopState) : loopState :=
  match n with
  | O => st
  | S n' =>
      if loopGuard text st
      then iterate n' text chunkSize overlap (loopBody text chunkSize overlap st)
      else st
  end.

(** The loop run with a bound on the number of iterations: [Some] of the
    chunks when the guard fails within the bound, [None] otherwise. *)
Fixpoint runLoop (fuel : nat) (text : str) (chunkSize overlap : Z) (st : loopState)
  : option (list str) :=
  if loopGuard text st then
    match fuel with
    | O => None
    | S fuel' => runLoop fuel' text chunkSize overlap (loopBody text chunkSize overlap st)
    end
  else Some (chunks st).

Definition initial : loopState := mkLoop 0 [].

(** [splitTextIntoChunks(text, chunkSize, overlap)].  [!text] holds of
    the empty string. *)
Definition splitTextIntoChunks (fuel : nat) (text : str) (chunkSize overlap : Z)
  : option (list str) :=
  if (match text with [] => true | _ => false end) || (len text <=? chunkSize)
  then Some [text]
  else runLoop fuel text chunkSize overlap initial.

Definition defaultChunkSize : Z := 4000.
Definition defaultOverlap : Z := 200.

(** [estimateTokenCount(text)]: [Math.ceil(text.length / 4)], and [0] for
    a falsy argument ([None] stands for an absent one). *)
Definition estimateTokenCount (text : option str) : Z :=
  match text with
  | None => 0
  | Some [] => 0
  | Some t => Qceiling (inject_Z (len t) / 4)
  end.

(** Decimal rendering of a non-negative integer, as template literals
    print it. *)
Definition digit (n : nat) : ascii := ascii_of_nat (48 + n).

Fixpoint decimal_aux (fuel n : nat) (acc : str) : str :=
  match fuel with
  | O => acc
  | S fuel' =>
      let acc' := digit (n mod 10) :: acc in
      match (n / 10)%nat with
      | O => acc'
      | q => decimal_aux fuel' q acc'
      end
  end.

Definition decimal (n : nat) : str := decimal_aux (S n) n [].

(** [createChunkTitle(chunk, index, filename)]. *)
Definition createChunkTitle (chunk : str) (index : nat) (filename : str) : str :=
  let firstLine := trim (firstLine chunk) in
  let preview :=
    if (50 <? length firstLine)%nat
    then substring0 firstLine 50 ++ lit "..."
    else firstLine in
  filename ++ lit " (chunk " ++ decimal (index + 1) ++ lit ") - " ++ preview.

End TextProcessing.

(* ================================================================== *)
(** ** [src/utils/db.ts]                                               *)
(* ================================================================== *)

Module Db.
Import JS.

(** A JavaScript number holding a coordinate or a similarity. *)
Definition number := float.

Record ContextItem : Type := mkItem {
  id : str;
  source : str;
  content : str;
  title : option str;
  url : option str;
  filepath : option str;
  embedding : option (list number);
  createdAt : str;
  similarity : option number
}.

(** [v[i]]; reading past the end gives [undefined], which arithmetic
    turns into NaN. *)
Definition at_ (v : list number) (i : nat) : number := nth i v nan.

(** The three accumulators of the [for] loop of [cosineSimilarity]. *)
Record sums : Type := mkSums { dotProduct : number; normA : number; normB : number }.

Definition accumulate (vectorA vectorB : list number) (acc : sums) (i : nat) : sums :=
  mkSums (dotProduct acc + at_ vectorA i * at_ vectorB i)%float
         (normA acc + at_ vectorA i * at_ vectorA i)%float
         (normB acc + at_ vectorB i * at_ vectorB i)%float.

Definition cosineSums (vectorA vectorB : list number) : sums :=
  fold_left (accumulate vectorA vectorB) (seq 0 (length vectorA)) (mkSums 0%float 0%float 0%float).

Definition lengthMismatch : thrown :=
  ErrorObj (lit "Vectors must have the same length").

(** [cosineSimilarity(vectorA, vectorB)]. *)
Definition cosineSimilarity (vectorA vectorB : list number) : outcome number :=
  if negb (length vectorA =? length vectorB)%nat then Throw lengthMismatch
  else
    let s := cosineSums vectorA vectorB in
    if (normA s =? 0)%float || (normB s =? 0)%float then Ok 0%float
    else Ok (dotProduct s / (sqrt (normA s) * sqrt (normB s)))%float.

(** [item.embedding && item.embedding.length > 0]. *)
Definition hasEmbedding (item : ContextItem) : bool :=
  match embedding item with
  | Some (_ :: _) => true
  | _ => false
  end.

Definition embeddingOf (item : ContextItem) : list number :=
  match embedding item with
  | Some e => e
  | None => []
  end.

(** [{ ...item, similarity }]. *)
Definition withSimilarity (item : ContextItem) (s : number) : ContextItem :=
  mkItem (id item) (source item) (content item) (title item) (url item)
         (filepath item) (embedding item) (createdAt item) (Some s).

Definition similarityOf (item : ContextItem) : number :=
  match similarity item with
  | Some s => s
  | None => nan
  end.

(** The comparator [(a, b) => b.similarity - a.similarity]. *)
Definition comparator (a b : ContextItem) : number :=
  (similarityOf b - similarityOf a)%float.

(** [Array.prototype.sort] reads a positive value of the comparator as
    "[a] comes after [b]"; zero and NaN express no preference. *)
Definition sortsAfter (a b : ContextItem) : bool := (0 <? comparator a b)%float.

(** [xs.sort(comparator)].  The sort is stable (ECMAScript 2019); on a
    comparator that is consistent on the elements every stable sort
    returns the same array, computed here by insertion: an element
    stays ahead of the sorted elements that followed it unless the
    comparator puts it after them.  On an inconsistent comparator the
    order is implementation-defined, and this is one such order. *)
Fixpoint insertSorted (x : ContextItem) (sorted : list ContextItem) : list ContextItem :=
  match sorted with
  | [] => [x]
  | y :: rest =>
      if sortsAfter x y then y :: insertSorted x rest
      else x :: sorted
  end.

Definition sort (xs : list ContextItem) : list ContextItem :=
  fold_right insertSorted [] xs.

(** The records that take part in the ranking, each with its similarity
    to the query: the [filter] and [map] of [findSimilarContexts]. *)
Definition scoreAll (contexts : list ContextItem) (queryEmbedding : list number)
  : outcome (list ContextItem) :=
  mapM (fun item =>
          bind (cosineSimilarity queryEmbedding (embeddingOf item))
               (fun s => Ok (withSimilarity item s)))
       (filter hasEmbedding contexts).

(** The ranking before the final [slice]. *)
Definition rankAll (contexts : option (list ContextItem)) (queryEmbedding : list number)
  : outcome (list ContextItem) :=
  match contexts with
  | None => Ok []
  | Some cs => bind (scoreAll cs queryEmbedding) (fun scored => Ok (sort scored))
  end.

(** [findSimilarContexts(queryEmbedding, limit)] over the value that
    [get("context")] returns ([None] when the key is absent), for an
    integer [limit]. *)
Definition findSimilarContexts (contexts : option (list ContextItem))
           (queryEmbedding : list number) (limit : Z) : outcome (list ContextItem) :=
  match contexts with
  | None => Ok []
  | Some [] => Ok []
  | Some cs =>
      bind (scoreAll cs queryEmbedding)
           (fun scored => Ok (slice (sort scored) 0 limit))
  end.

Definition defaultLimit : Z := 3.

End Db.

(* ================================================================== *)
(** ** The ingestion handlers                                          *)
(* ================================================================== *)

(** Both handlers receive the text from an extractor (a file reader or a
    page scraper), which is outside the model: the extracted text is an
    argument.  The embedding provider and the clock are outside too and
    enter through [Env].  The callbacks of [Promise.all(textChunks.map(...))]
    issue their [embedQuery] calls in index order and resume in the order
    in which the provider answers; that order is the argument [order], a
    list of chunk indices.  The API key is configured and the reads and
    writes of the store succeed. *)

Module Ingestion.
Import JS TextProcessing Db.

Record Env : Type := mkEnv {
  (** the answer to the [embedQuery] call made for chunk [i] *)
  embedQuery : nat -> str -> outcome (list number);
  (** [Date.now().toString()] as chunk [i] reads it *)
  dateNow : nat -> str;
  (** [Math.random().toString(36).substring(2, 9)] as chunk [i] reads it *)
  randomSuffix : nat -> str;
  (** [new Date().toISOString()] as chunk [i] reads it *)
  isoNow : nat -> str
}.

(** What the handlers act on: the value under the key ["context"], and
    the texts submitted to the embedding provider so far. *)
Record World : Type := mkWorld {
  context : option (list ContextItem);
  embedCalls : list str
}.

(** [error instanceof Error ? error.message : "Unknown error"]. *)
Definition errorMessage (e : thrown) : str :=
  match e with
  | ErrorObj m => m
  | OtherValue => lit "Unknown error"
  end.

(** An element of [chunkResults]; [title] is set on success and [error]
    on failure. *)
Record ChunkResult : Type := mkChunk {
  chunkIndex : nat;
  chunkTitle : option str;
  chunkError : option str;
  charCount : Z;
  tokenCount : Z
}.

(** Truthiness of [chunk.error]: set, and not the empty string. *)
Definition hasError (c : ChunkResult) : bool :=
  match chunkError c with
  | Some (_ :: _) => true
  | _ => false
  end.

Definition MAX_TOKENS : Z := 8000.

(** [estimatedTokens > MAX_TOKENS ? splitTextIntoChunks(content) : [content]];
    [None] when the chunker does not return within [fuel] iterations. *)
Definition textChunksOf (fuel : nat) (content : str) : option (list str) :=
  if MAX_TOKENS <? estimateTokenCount (Some content)
  then splitTextIntoChunks fuel content defaultChunkSize defaultOverlap
  else Some [content].

(** [textChunks.length > 1 ? createChunkTitle(chunk, index, base) : base]. *)
Definition titleFor (total : nat) (chunk : str) (index : nat) (base : str) : str :=
  if (1 <? total)%nat then createChunkTitle chunk index base else base.

(** [db.get("context") || []], then [push], then [db.set]. *)
Definition pushAll (ctx : option (list ContextItem)) (items : list ContextItem)
  : option (list ContextItem) :=
  Some (match ctx with Some l => l | None => [] end ++ items).

(** The chunks with their indices, as [map] hands them to its callback. *)
Definition indexed (textChunks : list str) : list (nat * str) :=
  combine (seq 0 (length textChunks)) textChunks.

(** The callbacks that resume, in the order of [order]. *)
Definition resumed (textChunks : list str) (order : list nat) : list (nat * str) :=
  flat_map (fun i => match nth_error textChunks i with
                     | Some chunk => [(i, chunk)]
                     | None => []
                     end) order.

Definition failureOf (index : nat) (chunk : str) (e : thrown) : ChunkResult :=
  mkChunk index None (Some (errorMessage e)) (len chunk)
          (estimateTokenCount (Some chunk)).

(** *** [src/pages/api/upload.ts] *)

Record ProcessedFile : Type := mkFile {
  filename : str;
  file_filepath : str;
  mimetype : str;
  size : Z
}.

(** An element of [processedFiles] in the response. *)
Record FileReport : Type := mkFileReport {
  name : str;
  type_ : str;
  report_size : Z;
  path : str;
  error : option str;
  totalChunks : nat;
  isPdfWithoutText : bool;
  chunks : option (list ChunkResult);
  failedChunks : option (list ChunkResult);
  successfulChunks : option nat
}.

Definition toLowerCase (s : str) : str :=
  map (fun c =>
         let n := N_of_ascii c in
         if ((65 <=? n) && (n <=? 90) || (192 <=? n) && (n <=? 222) && negb (n =? 215))%N
         then ascii_of_N (n + 32) else c) s.

Definition endsWith (s p : str) : bool := startsWith (rev s) (rev p).

Fixpoint streq (a b : str) : bool :=
  match a, b with
  | [], [] => true
  | x :: a', y :: b' => Ascii.eqb x y && streq a' b'
  | _, _ => false
  end.

Definition isPdf (file : ProcessedFile) : bool :=
  streq (mimetype file) (lit "application/pdf")
  || endsWith (toLowerCase (file_filepath file)) (lit ".pdf").

(** [!content || content.trim() === ""]. *)
Definition noContent (content : str) : bool :=
  match content with
  | [] => true
  | _ => match trim content with [] => true | _ => false end
  end.

(** The prefixes by which the handler recognizes a failed extraction. *)
Definition isSentinel (content : str) : bool :=
  startsWith content (lit "[Error parsing PDF:")
  || startsWith content (lit "[Error reading PDF file:").

Definition errorReport (file : ProcessedFile) (msg : str) (pdfWithoutText : bool)
  : FileReport :=
  mkFileReport (filename file) (mimetype file) (size file) (file_filepath file)
               (Some msg) 0 pdfWithoutText None None None.

(** The record built for chunk [index] once its embedding arrived. *)
Definition fileItem (env : Env) (file : ProcessedFile) (total index : nat)
           (chunk : str) (e : list number) : ContextItem :=
  mkItem (dateNow env index ++ lit "-chunk-" ++ decimal index ++ lit "-"
            ++ randomSuffix env index)
         (lit "file") chunk
         (Some (titleFor total chunk index (filename file)))
         None (Some (file_filepath file)) (Some e) (isoNow env index) None.

(** What the callback of chunk [index] returns. *)
Definition uploadResult (env : Env) (file : ProcessedFile) (total : nat)
           (ic : nat * str) : ChunkResult :=
  let '(index, chunk) := ic in
  match embedQuery env index chunk with
  | Ok _ => mkChunk index (Some (titleFor total chunk index (filename file))) None
                    (len chunk) (estimateTokenCount (Some chunk))
  | Throw e => failureOf index chunk e
  end.

(** What the callback of chunk [index] does to the store when it
    resumes: on success it appends its record at once. *)
Definition uploadResume (env : Env) (file : ProcessedFile) (total : nat)
           (ctx : option (list ContextItem)) (ic : nat * str)
  : option (list ContextItem) :=
  let '(index, chunk) := ic in
  match embedQuery env index chunk with
  | Ok e => pushAll ctx [fileItem env file total index chunk e]
  | Throw _ => ctx
  end.

(** The chunk stage of the handler, from [textChunks] on. *)
Definition uploadChunks (env : Env) (order : list nat) (file : ProcessedFile)
           (textChunks : list str) (w : World) : FileReport * World :=
  let total := length textChunks in
  let chunkResults := map (uploadResult env file total) (indexed textChunks) in
  let successful := filter (fun c => negb (hasError c)) chunkResults in
  let failed := filter hasError chunkResults in
  (mkFileReport (filename file) (mimetype file) (size file) (file_filepath file)
                None total false (Some successful)
                (if (0 <? length failed)%nat then Some failed else None)
                (Some (length successful)),
   mkWorld (fold_left (uploadResume env file total) (resumed textChunks order)
                      (context w))
           (embedCalls w ++ textChunks)).

(** The callback of [files.map] for one file whose extracted text is
    [content]. *)
Definition processFile (fuel : nat) (env : Env) (order : list nat)
           (file : ProcessedFile) (content : str) (w : World)
  : option (FileReport * World) :=
  if noContent content then
    if isPdf file
    then Some (errorReport file
                 (lit "This PDF might be image-only or scanned. No text content could be extracted.")
                 true, w)
    else Some (errorReport file (lit "Could not extract text content from this file")
                 false, w)
  else if isSentinel content then Some (errorReport file content false, w)
  else
    match textChunksOf fuel content with
    | None => None
    | Some textChunks => Some (uploadChunks env order file textChunks w)
    end.

(** *** [src/pages/api/scrape.ts] *)

(** An element of [contextItems] in the response. *)
Record ItemSummary : Type := mkSummary {
  summary_id : str;
  summary_title : option str;
  contentPreview : str;
  embeddingLength : nat
}.

(** The body of the 200 response, without its two message strings. *)
Record ScrapeReport : Type := mkScrapeReport {
  success : bool;
  contentLength : Z;
  scrape_totalChunks : nat;
  scrape_successfulChunks : nat;
  scrape_failedChunks : nat;
  contextItems : list ItemSummary
}.

(** [title || url]. *)
Definition baseTitle (title url : str) : str :=
  match title with
  | [] => url
  | _ => title
  end.

Definition urlItem (env : Env) (url title : str) (total index : nat)
           (chunk : str) (e : list number) : ContextItem :=
  mkItem (dateNow env index ++ lit "-url-chunk-" ++ decimal index ++ lit "-"
            ++ randomSuffix env index)
         (lit "url") chunk
         (Some (titleFor total chunk index (baseTitle title url)))
         (Some url) None (Some e) (isoNow env index) None.

Definition scrapeResult (env : Env) (url title : str) (total : nat)
           (ic : nat * str) : ChunkResult :=
  let '(index, chunk) := ic in
  match embedQuery env index chunk with
  | Ok _ => mkChunk index (Some (titleFor total chunk index (baseTitle title url)))
                    None (len chunk) (estimateTokenCount (Some chunk))
  | Throw e => failureOf index chunk e
  end.

(** On success the callback pushes its record on the local array
    [contextItems]. *)
Definition scrapeResume (env : Env) (url title : str) (total : nat)
           (ic : nat * str) : list ContextItem :=
  let '(index, chunk) := ic in
  match embedQuery env index chunk with
  | Ok e => [urlItem env url title total index chunk e]
  | Throw _ => []
  end.

Definition summarize (item : ContextItem) : ItemSummary :=
  mkSummary (id item) (title item)
            (substring0 (content item) 100 ++ lit "...")
            (length (embeddingOf item)).

(** The handler from the scraped [content] and [title] on (the API key
    is configured). *)
Definition scrapeChunks (env : Env) (order : list nat) (url title : str)
           (contentLen : Z) (textChunks : list str) (w : World)
  : ScrapeReport * World :=
  let total := length textChunks in
  let items := flat_map (scrapeResume env url title total) (resumed textChunks order) in
  let chunkResults := map (scrapeResult env url title total) (indexed textChunks) in
  let successful := filter (fun c => negb (hasError c)) chunkResults in
  let failed := filter hasError chunkResults in
  (mkScrapeReport true contentLen total (length successful)
                  (if (0 <? length failed)%nat then length failed else 0%nat)
                  (map summarize items),
   mkWorld (pushAll (context w) items) (embedCalls w ++ textChunks)).

Definition scrapeIngest (fuel : nat) (env : Env) (order : list nat)
           (url title content : str) (w : World)
  : option (ScrapeReport * World) :=
  match textChunksOf fuel content with
  | None => None
  | Some textChunks =>
      Some (scrapeChunks env order url title (len content) textChunks w)
  end.

End Ingestion.

(* ================================================================== *)
(** ** [src/pages/api/upload.ts]: text extraction                      *)
(* ================================================================== *)

Module Extraction.
Import JS TextProcessing Ingestion.

Definition LF : str := ["010"%char].

(** A row as [sheet_to_json] and csv-parser deliver it, an object.
    [ownKeys] are its own enumerable keys in the order of [Object.keys],
    each with the text of its value as a template literal prints it, or
    [None] for [undefined].  [otherwise] is what [row[key]] finds for
    any other key: a member of [Object.prototype] such as [toString], or
    an own property that is not enumerable; again the text of the
    value, [None] for [undefined]. *)
Record Row : Type := mkRow {
  ownKeys : list (str * option str);
  otherwise : str -> option str
}.

(** [Object.keys(row)]. *)
Definition keysOf (row : Row) : list str := map fst (ownKeys row).

Record Sheet : Type := mkSheet {
  sheetName : str;
  jsonData : list Row
}.

(** How the promise around the CSV stream ends.  The three listeners
    are attached to what [pipe] returns, the parser: its [end] resolves
    the promise with the rows pushed so far, its [error] rejects it.  An
    error of the read stream has no listener and is not passed on by
    [pipe]: the promise is never settled, and [readFileContent] returns
    nothing. *)
Inductive CsvOutcome : Type :=
| CsvRows (results : list Row)
| CsvRejected (error : thrown)
| CsvUnsettled.

(** The file system and the parsing libraries, for the paths they are
    asked about. *)
Record Files : Type := mkFiles {
  (** [fsPromises.readFile(filepath)]: the length of the buffer *)
  readFile : str -> outcome Z;
  (** [pdfParse(filepath)]: [pdfData.text], [None] where [pdfData] or
      its text is missing *)
  pdfParse : str -> outcome (option str);
  (** [mammoth.extractRawText]: [result.value] *)
  extractRawText : str -> outcome (option str);
  (** [XLSX.readFile] with [sheet_to_json] of every sheet of
      [SheetNames] *)
  readWorkbook : str -> outcome (list Sheet);
  (** [createReadStream(filepath).pipe(csvParser())] *)
  parseCsv : str -> CsvOutcome;
  (** [fsPromises.readFile(filepath, "utf8")] *)
  readUtf8 : str -> outcome str
}.

(** [row[header]]: the own property if there is one, else what the
    lookup finds elsewhere. *)
Definition cell (row : Row) (header : str) : option str :=
  match find (fun kv => streq (fst kv) header) (ownKeys row) with
  | Some (_, v) => v
  | None => otherwise row header
  end.

(** One iteration of [forEach((row, rowIndex) => ...)]. *)
Definition renderRow (headers : list str) (rowIndex : nat) (row : Row) : str :=
  lit "Row " ++ decimal (rowIndex + 1) ++ lit ": "
  ++ flat_map (fun header =>
                 match cell row header with
                 | Some v => header ++ lit ": " ++ v ++ lit "; "
                 | None => []
                 end) headers
  ++ LF.

(** All rows, with the keys of the first row as headers. *)
Definition renderRows (rows : list Row) : str :=
  match rows with
  | [] => []
  | first :: _ =>
      flat_map (fun ir => renderRow (keysOf first) (fst ir) (snd ir))
               (combine (seq 0 (length rows)) rows)
  end.

Definition renderSheet (sheet : Sheet) : str :=
  lit "## Sheet: " ++ sheetName sheet ++ LF2
  ++ match jsonData sheet with
     | [] => lit "No data in this sheet" ++ LF2
     | rows => renderRows rows ++ LF
     end.

(** [content || "Empty Excel file"]. *)
Definition renderWorkbook (sheets : list Sheet) : str :=
  match flat_map renderSheet sheets with
  | [] => lit "Empty Excel file"
  | content => content
  end.

Definition renderCsv (results : list Row) : str :=
  match results with
  | [] => lit "Empty CSV file or no data rows"
  | first :: _ =>
      lit "CSV file with " ++ decimal (length results) ++ lit " rows and "
      ++ decimal (length (keysOf first)) ++ lit " columns" ++ LF2
      ++ renderRows results
  end.

Definition pdfPlaceholder : str :=
  lit "[PDF content appears to be empty or contains only images]".

(** The conditions of the [if] chain, in its order. *)
Definition isPdfKind (filepath mimetype : str) : bool :=
  streq mimetype (lit "application/pdf")
  || endsWith (toLowerCase filepath) (lit ".pdf").

Definition isDocxKind (filepath mimetype : str) : bool :=
  streq mimetype
        (lit "application/vnd.openxmlformats-officedocument.wordprocessingml.document")
  || endsWith (toLowerCase filepath) (lit ".docx").

Definition isExcelKind (filepath mimetype : str) : bool :=
  streq mimetype (lit "application/vnd.ms-excel")
  || streq mimetype
           (lit "application/vnd.openxmlformats-officedocument.spreadsheetml.sheet")
  || endsWith (toLowerCase filepath) (lit ".xls")
  || endsWith (toLowerCase filepath) (lit ".xlsx").

Definition isCsvKind (filepath mimetype : str) : bool :=
  streq mimetype (lit "text/csv")
  || streq mimetype (lit "application/csv")
  || endsWith (toLowerCase filepath) (lit ".csv").

Definition isTextKind (filepath mimetype : str) : bool :=
  streq mimetype (lit "text/plain")
  || endsWith (toLowerCase filepath) (lit ".txt")
  || endsWith (toLowerCase filepath) (lit ".md").

(** The PDF branch, with its two nested [try] blocks. *)
Definition readPdf (fs : Files) (filepath : str) : str :=
  match readFile fs filepath with
  | Throw fileError =>
      lit "[Error reading PDF file: " ++ errorMessage fileError ++ lit "]"
  | Ok bufferLength =>
      if bufferLength =? 0 then []
      else
        match pdfParse fs filepath with
        | Throw pdfError =>
            lit "[Error parsing PDF: " ++ errorMessage pdfError ++ lit "]"
        | Ok None => []
        | Ok (Some []) => []
        | Ok (Some text) =>
            match trim text with
            | [] => pdfPlaceholder
            | trimmed => trimmed
            end
        end
  end.

(** The DOCX branch; an exception reaches the outer [catch]. *)
Definition readDocx (fs : Files) (filepath : str) : str :=
  match readFile fs filepath with
  | Throw _ => []
  | Ok _ =>
      match extractRawText fs filepath with
      | Ok (Some value) => value
      | Ok None => []
      | Throw _ => []
      end
  end.

(** The Excel branch: every exception is caught. *)
Definition readExcel (fs : Files) (filepath : str) : str :=
  match readWorkbook fs filepath with
  | Ok sheets => renderWorkbook sheets
  | Throw excelError =>
      lit "[Error processing Excel file: " ++ errorMessage excelError ++ lit "]"
  end.

(** The CSV branch; [None] when the promise is never settled. *)
Definition readCsv (fs : Files) (filepath : str) : option str :=
  match parseCsv fs filepath with
  | CsvRows results => Some (renderCsv results)
  | CsvRejected csvError =>
      Some (lit "[Error processing CSV file: " ++ errorMessage csvError ++ lit "]")
  | CsvUnsettled => None
  end.

(** [readFileContent(filepath, mimetype)]: the text it returns, [None]
    when it never returns. *)
Definition readFileContent (fs : Files) (filepath mimetype : str) : option str :=
  if isPdfKind filepath mimetype then Some (readPdf fs filepath)
  else if isDocxKind filepath mimetype then Some (readDocx fs filepath)
  else if isExcelKind filepath mimetype then Some (readExcel fs filepath)
  else if isCsvKind filepath mimetype then readCsv fs filepath
  else if isTextKind filepath mimetype then
    match readUtf8 fs filepath with
    | Ok text => Some text
    | Throw _ => Some []
    end
  else
    match readUtf8 fs filepath with
    | Ok text => Some text
    | Throw _ => Some []
    end.

(** Two rows that agree on the columns of the first row. *)
Definition agreeOn (first row row' : Row) : Prop :=
  forall header, In header (keysOf first) -> cell row header = cell row' header.

(** A text the handler goes on to chunk: neither blank nor starting
    with one of the two PDF prefixes. *)
Definition accepted (content : str) : Prop :=
  noContent content = false /\ isSentinel content = false.

(** The callback of [files.map] for one file, from the reading of its
    content on; [None] when it never returns. *)
Definition fileCallback (fuel : nat) (fs : Files) (env : Env) (order : list nat)
           (file : ProcessedFile) (w : World) : option (FileReport * World) :=
  match readFileContent fs (file_filepath file) (mimetype file) with
  | Some content => processFile fuel env order file content w
  | None => None
  end.

End Extraction.

(* ================================================================== *)
(** ** [src/pages/api/scrape.ts]: the choice of a scraper              *)
(* ================================================================== *)

Module Scraping.
Import JS TextProcessing Ingestion.

(** What each of the two scrapers returns. *)
Record Page : Type := mkPage {
  page_content : str;
  page_title : str
}.

(** [initialResponse.data]: the body as text, or, for a body that axios
    parsed as JSON, a value that is not a string, of which the handler
    reads the truthiness only. *)
Inductive Body : Type :=
| Text (html : str)
| Parsed (truthy : bool).

(** [!data]. *)
Definition falsy (data : Body) : bool :=
  match data with
  | Text [] => true
  | Text (_ :: _) => false
  | Parsed truthy => negb truthy
  end.

(** The network, the HTML analysis and the two scrapers, for the URL of
    the request. *)
Record Web : Type := mkWeb {
  (** [axios.get(url, ...)]: [data] and [status] of the response *)
  get : outcome (Body * Z);
  (** [isLikelyCSR(data)]; it throws on a body that is not text, at
      [htmlContent.includes] if not before *)
  isLikelyCSR : Body -> outcome bool;
  scrapeStaticContent : Body -> outcome Page;
  (** [scrapeDynamicContent(url)]; the handler calls it at most once *)
  scrapeDynamicContent : outcome Page
}.

(** The values of [scrapingMethod]. *)
Inductive Method : Type :=
| Static
| Dynamic
| StaticFallback
| StaticDynamicFallbackFailed.

Definition methodName (m : Method) : str :=
  match m with
  | Static => lit "static"
  | Dynamic => lit "dynamic"
  | StaticFallback => lit "static (fallback)"
  | StaticDynamicFallbackFailed => lit "static (dynamic fallback failed)"
  end.

Definition isStatic (m : Method) : bool :=
  match m with
  | Static => true
  | _ => false
  end.

(** [content], [title] and [scrapingMethod] when the scraping is
    done. *)
Record Scraped : Type := mkScraped {
  scraped_content : str;
  scraped_title : str;
  scrapingMethod : Method
}.

(** The response after [.catch]: a rejected request counts as one
    without data (its status is not 200 with data, whatever the
    rejection carried). *)
Definition initialResponse (web : Web) : Body * Z :=
  match get web with
  | Ok response => response
  | Throw _ => (Text [], 500)
  end.

(** [!initialResponse.data || initialResponse.status !== 200]. *)
Definition unsuccessful (response : Body * Z) : bool :=
  falsy (fst response) || negb (snd response =? 200).

Definition failedToScrape (url : str) (e : thrown) : thrown :=
  ErrorObj (lit "Failed to scrape content from " ++ url ++ lit ": " ++ errorMessage e).

(** The first attempt on a page that was fetched; an exception of
    [isLikelyCSR] or of the static scraper is not caught here. *)
Definition firstAttempt (web : Web) (data : Body) : outcome Scraped :=
  bind (isLikelyCSR web data) (fun likelyCSR =>
  if likelyCSR then
    match scrapeDynamicContent web with
    | Ok dynamicResult =>
        Ok (mkScraped (page_content dynamicResult) (page_title dynamicResult) Dynamic)
    | Throw _ =>
        bind (scrapeStaticContent web data) (fun staticResult =>
        Ok (mkScraped (page_content staticResult) (page_title staticResult)
                      StaticFallback))
    end
  else
    bind (scrapeStaticContent web data) (fun staticResult =>
    Ok (mkScraped (page_content staticResult) (page_title staticResult) Static))).

(** The fallback to the browser when the static content is small. *)
Definition smallContentFallback (web : Web) (first : Scraped) : Scraped :=
  if (len (scraped_content first) <? 500) && isStatic (scrapingMethod first) then
    match scrapeDynamicContent web with
    | Ok dynamicResult =>
        mkScraped (page_content dynamicResult)
                  (match page_title dynamicResult with
                   | [] => scraped_title first
                   | t => t
                   end)
                  Dynamic
    | Throw _ =>
        mkScraped (scraped_content first) (scraped_title first)
                  StaticDynamicFallbackFailed
    end
  else first.

(** The scraping stage of the handler. *)
Definition scrape (web : Web) (url : str) : outcome Scraped :=
  let initial := initialResponse web in
  if unsuccessful initial then
    match scrapeDynamicContent web with
    | Ok dynamicResult =>
        Ok (mkScraped (page_content dynamicResult) (page_title dynamicResult) Dynamic)
    | Throw puppeteerError => Throw (failedToScrape url puppeteerError)
    end
  else
    bind (firstAttempt web (fst initial)) (fun first =>
    Ok (smallContentFallback web first)).

(** The answers of the handler to a GET request with a URL, the API key
    being configured: the 500 of the outer [catch] with its [error]
    field, or the 200 with the report and the method. *)
Inductive ScrapeAnswer : Type :=
| ScrapeFailed (error : str)
| ScrapeDone (report : ScrapeReport) (method : str).

(** The handler; [None] when the chunker does not return within
    [fuel] iterations. *)
Definition scrapeHandler (fuel : nat) (web : Web) (env : Env) (order : list nat)
           (url : str) (w : World) : option (ScrapeAnswer * World) :=
  match scrape web url with
  | Throw e => Some (ScrapeFailed (errorMessage e), w)
  | Ok scraped =>
      match scrapeIngest fuel env order url (scraped_title scraped)
                         (scraped_content scraped) w with
      | Some (report, w') =>
          Some (ScrapeDone report (methodName (scrapingMethod scraped)), w')
      | None => None
      end
  end.

End Scraping.

(* ================================================================== *)
(** ** [src/pages/api/analyze-review.ts]                               *)
(* ================================================================== *)

Module Analysis.
Import JS TextProcessing Db Ingestion.

Definition QUOTE : str := ["034"%char].
Definition NL : str := ["010"%char].

(** [Math.ceil(s.length / 4)]. *)
Definition quarterCeil (s : str) : Z := Qceiling (inject_Z (len s) / 4).

Definition contextHeader : str := LF2 ++ lit "Relevant Organization Context:" ++ NL.

Definition truncationNote : str :=
  NL ++ lit "[Additional context truncated to fit token limits]".

(** The [for] loop over [contextualContent], with its [break]. *)
Fixpoint addItems (items : list str) (context : str) (estimatedTokens : Z)
  : str * Z :=
  match items with
  | [] => (context, estimatedTokens)
  | item :: rest =>
      let itemTokens := quarterCeil item in
      if 4000 <? estimatedTokens + itemTokens
      then (context ++ truncationNote, estimatedTokens)
      else addItems rest (context ++ item ++ LF2) (estimatedTokens + itemTokens + 2)
  end.

(** The first two lines of the context; [rating] as the template
    literal prints it. *)
Definition reviewLines (review rating : str) : str :=
  lit "Review: " ++ QUOTE ++ review ++ QUOTE ++ NL
  ++ lit "Rating: " ++ rating ++ lit "/5".

(** [context] and [estimatedTokens] when the loop is done. *)
Definition compileContext (review rating : str) (contextualContent : list str)
  : str * Z :=
  let context := reviewLines review rating in
  let estimatedTokens := quarterCeil context in
  match contextualContent with
  | [] => (context, estimatedTokens)
  | _ :: _ => addItems contextualContent (context ++ contextHeader)
                       (estimatedTokens + 5)
  end.

(** [item.title ? `Source: ...` : item.source]. *)
Definition sourceInfo (item : ContextItem) : str :=
  match title item with
  | Some (c :: t) =>
      lit "Source: " ++ (c :: t)
      ++ match url item with
         | Some (u :: us) => lit " (" ++ (u :: us) ++ lit ")"
         | _ => []
         end
  | _ => source item
  end.

(** The embedding provider, the language model, and the printing of
    [Math.round(x)]. *)
Record Services : Type := mkServices {
  embedReview : str -> outcome (list number);
  (** [llm.predict(prompt)], as a function of the context the prompt is
      built around *)
  predict : str -> outcome str;
  printRounded : number -> str
}.

(** [item.similarity ? Math.round(item.similarity * 100) : 0], printed;
    zero and NaN are falsy. *)
Definition similarityPercentage (sv : Services) (item : ContextItem) : str :=
  match similarity item with
  | Some s =>
      if (s =? 0)%float || negb (s =? s)%float then lit "0"
      else printRounded sv (s * 100)%float
  | None => lit "0"
  end.

(** An element of [contextualContent]. *)
Definition describe (sv : Services) (item : ContextItem) : str :=
  sourceInfo item ++ lit " (" ++ similarityPercentage sv item
  ++ lit "% relevant):" ++ NL ++ content item.

(** An element of [relevantContext] in the response:
    [item.title || item.source] and the similarity. *)
Definition mention (item : ContextItem) : str * option number :=
  (match title item with
   | Some (c :: t) => c :: t
   | _ => source item
   end, similarity item).

(** The answers to a POST request, the API key being configured: the
    400, the 500 of the [catch] with its [error] field, or the 200 with
    the context given to the model, the model's output (from which the
    handler extracts the fields of the response) and [relevantContext]. *)
Inductive Answer : Type :=
| BadRequest
| ServerError (error : str)
| Analyzed (context : str) (llmOutput : str)
           (relevantContext : list (str * option number)).

(** The handler; [review] and [rating] are [None] when the field of the
    body is falsy, [rating] is given as the template literal prints
    it. *)
Definition analyze (sv : Services) (store : option (list ContextItem))
           (review rating : option str) : Answer :=
  match review, rating with
  | Some (c :: r), Some ratingText =>
      let result :=
        bind (embedReview sv (c :: r)) (fun reviewEmbedding =>
        bind (findSimilarContexts store reviewEmbedding 5) (fun relevantContexts =>
        let context :=
          fst (compileContext (c :: r) ratingText
                              (map (describe sv) relevantContexts)) in
        bind (predict sv context) (fun llmOutput =>
        Ok (Analyzed context llmOutput (map mention relevantContexts))))) in
      match result with
      | Ok answer => answer
      | Throw e => ServerError (errorMessage e)
      end
  | _, _ => BadRequest
  end.

(** The text the loop appends for the items it includes, and the
    estimate after them. *)
Definition included (items : list str) : str :=
  flat_map (fun item => item ++ LF2) items.

Definition spent (items : list str) (start : Z) : Z :=
  fold_left (fun estimatedTokens item => estimatedTokens + quarterCeil item + 2)
            items start.

End Analysis.

(* ================================================================== *)
(** ** [src/components/ContextUpload.tsx]                              *)
(* ================================================================== *)

Module Client.
Import JS TextProcessing Ingestion.

(** The fields of a browser [File] that the component reads. *)
Record File : Type := mkClientFile {
  file_name : str;
  file_type : str;
  file_size : Z
}.

Definition MAX_FILE_SIZE : Z := 20 * 1024 * 1024.

(** The validators return the message of a rejection, [None] for
    [{ valid: true }]. *)
Definition validateFileSize (file : File) : option str :=
  if MAX_FILE_SIZE <? file_size file
  then Some (lit "File " ++ file_name file
             ++ lit " is too large. Maximum file size is 20MB.")
  else None.

Definition supportedTypes : list str :=
  [lit "text/plain";
   lit "text/markdown";
   lit "application/pdf";
   lit "application/vnd.openxmlformats-officedocument.wordprocessingml.document";
   lit "application/vnd.ms-excel";
   lit "application/vnd.openxmlformats-officedocument.spreadsheetml.sheet";
   lit "text/csv";
   lit "application/csv"].

Definition supportedExtensions : list str :=
  [lit ".txt"; lit ".md"; lit ".pdf"; lit ".docx"; lit ".xls"; lit ".xlsx";
   lit ".csv"].

(** [xs.includes(s)] for an array of strings. *)
Definition includes (xs : list str) (s : str) : bool := existsb (streq s) xs.

(** [s.substring(i)]: a negative index counts as 0. *)
Definition substringFrom (s : str) (i : Z) : str :=
  skipn (Z.to_nat (Z.min (Z.max i 0) (len s))) s.

(** [file.name.substring(file.name.lastIndexOf(".")).toLowerCase()]. *)
Definition fileExtension (file : File) : str :=
  toLowerCase (substringFrom (file_name file)
                             (lastIndexOf (file_name file) (lit ".")
                                          (len (file_name file)))).

Definition validateFileType (file : File) : option str :=
  if negb (includes supportedTypes (file_type file))
     && negb (includes supportedExtensions (fileExtension file))
  then Some (lit "File type "
             ++ match file_type file with
                | [] => fileExtension file
                | t => t
                end
             ++ lit " is not supported. Please upload TXT, MD, PDF, DOCX, XLS, XLSX, or CSV files.")
  else None.

Definition validateFile (file : File) : option str :=
  match validateFileSize file with
  | Some message => Some message
  | None =>
      match validateFileType file with
      | Some message => Some message
      | None => None
      end
  end.





End Client.

(* ================================================================== *)
(** ** Predicates in which the properties are stated                   *)
(* ================================================================== *)

Module Chunking.
Import JS TextProcessing.

(** A text with no space and no line feed has none of the three breaks
    the chunker looks for. *)
Definition breakFree (text : str) : Prop :=
  ~ In " "%char text /\ ~ In "010"%char text.

(** The chunks with the overlap taken off the front of every chunk but
    the first, and concatenated. *)
Definition removeOverlaps (overlap : Z) (cs : list str) : str :=
  match cs with
  | [] => []
  | c :: rest => c ++ concat (map (skipn (Z.to_nat overlap)) rest)
  end.

(** The start and end index of each chunk that the loop cuts in its
    first [n] iterations, from the start index [s] on. *)
Fixpoint spansFrom (n : nat) (text : str) (chunkSize overlap s : Z) : list (Z * Z) :=
  match n with
  | O => []
  | S n' =>
      if s <? len text then
        (s, chunkEnd text chunkSize s)
          :: spansFrom n' text chunkSize overlap
                       (nextStart overlap (chunkEnd text chunkSize s))
      else []
  end.

Definition sliceOf (text : str) (span : Z * Z) : str :=
  slice text (fst span) (snd span).

(** The index [i] lies inside the span. *)
Definition covers (i : Z) (span : Z * Z) : Prop := fst span <= i < snd span.

(** Each span begins inside the text, is not empty, and the next one
    begins at or before its end. *)
Fixpoint chained (text : str) (spans : list (Z * Z)) : Prop :=
  match spans with
  | [] => True
  | (a, b) :: rest =>
      0 <= a < len text /\ a < b
      /\ match rest with
         | [] => len text <= b
         | (a', _) :: _ => a' <= b
         end
      /\ chained text rest
  end.

End Chunking.

Module Ranking.
Import JS Db.

(** The sum of squares as the loop of [cosineSimilarity] accumulates
    it, in floating point. *)
Definition sumSquares (v : list number) : number :=
  fold_left (fun acc x => (acc + x * x)%float) v 0%float.

(** A vector has zero norm when that sum is zero.  Such are the vectors
    of zeros, and the vectors whose squares all underflow. *)
Definition zeroNorm (v : list number) : Prop :=
  (sumSquares v =? 0)%float = true.

Definition isZero (x : number) : Prop := x = 0%float \/ x = (-0)%float.

(** A record that takes part in the ranking and whose embedding has
    another length than the query. *)
Definition mismatched (queryEmbedding : list number) (item : ContextItem) : Prop :=
  hasEmbedding item = true
  /\ length (embeddingOf item) <> length queryEmbedding.

Definition dimensionsMatch (queryEmbedding : list number)
           (contexts : list ContextItem) : Prop :=
  Forall (fun item => hasEmbedding item = true ->
                      length (embeddingOf item) = length queryEmbedding)
         contexts.

(** The similarity of a record to the query (NaN where
    [cosineSimilarity] throws), and the qualifying records of a store,
    in store order, each with its similarity. *)
Definition similarityTo (queryEmbedding : list number) (item : ContextItem) : number :=
  match cosineSimilarity queryEmbedding (embeddingOf item) with
  | Ok s => s
  | Throw _ => nan
  end.

Definition scored (contexts : list ContextItem) (queryEmbedding : list number)
  : list ContextItem :=
  map (fun item => withSimilarity item (similarityTo queryEmbedding item))
      (filter hasEmbedding contexts).

(** [a] has a strictly lower similarity than [b]. *)
Definition lower (a b : ContextItem) : bool :=
  (similarityOf a <? similarityOf b)%float.

Definition tied (a b : ContextItem) : bool :=
  negb (lower a b) && negb (lower b a).

(** No record is followed, at any distance, by one of strictly greater
    similarity. *)
Definition descending (l : list ContextItem) : Prop :=
  StronglySorted (fun a b => lower a b = false) l.

(** The comparator is consistent on the records of [l]: the sign of
    [b.similarity - a.similarity] tells whether [a] is lower than [b],
    and "not lower" is a total preorder on them.  This is the condition
    under which ECMAScript defines the result of [sort]; it fails when
    a similarity is NaN next to two different similarities. *)
Definition consistentAt (a b c : ContextItem) : bool :=
  Bool.eqb (sortsAfter a b) (lower a b)
  && implb (lower a b) (negb (lower b a))
  && implb (negb (lower a b) && negb (lower b c)) (negb (lower a c)).

Definition consistentOn (l : list ContextItem) : bool :=
  forallb (fun a => forallb (fun b => forallb (consistentAt a b) l) l) l.

Definition Consistent (l : list ContextItem) : Prop :=
  forall a b c, In a l -> In b l -> In c l -> consistentAt a b c = true.

(** The three sums of [cosineSimilarity] with the two vectors
    exchanged: the norms change places. *)
Definition swapSums (s : sums) : sums := mkSums (dotProduct s) (normB s) (normA s).

End Ranking.

Module Batch.
Import JS TextProcessing Db Ingestion.

(** The embedding call for the chunk fails. *)
Definition failsAt (env : Env) (ic : nat * str) : bool :=
  match embedQuery env (fst ic) (snd ic) with
  | Throw _ => true
  | Ok _ => false
  end.

(** The chunks of a batch whose embedding call fails, with their
    indices, in index order. *)
Definition failures (env : Env) (textChunks : list str) : list (nat * str) :=
  filter (failsAt env) (indexed textChunks).

(** Every error that the provider raises on the batch has a non-empty
    message. *)
Definition messagesNonEmpty (env : Env) (textChunks : list str) : Prop :=
  forall ic e,
    In ic (indexed textChunks) ->
    embedQuery env (fst ic) (snd ic) = Throw e ->
    errorMessage e <> [].

(** The entry [c] records the failure of the chunk [ic]: its index and
    the message of its error. *)
Definition recordsFailure (env : Env) (c : ChunkResult) (ic : nat * str) : Prop :=
  chunkIndex c = fst ic
  /\ exists e, embedQuery env (fst ic) (snd ic) = Throw e
               /\ chunkError c = Some (errorMessage e).

(** The record the upload handler stores for a chunk, if any. *)
Definition fileItems (env : Env) (file : ProcessedFile) (total : nat)
           (ic : nat * str) : list ContextItem :=
  match embedQuery env (fst ic) (snd ic) with
  | Ok e => [fileItem env file total (fst ic) (snd ic) e]
  | Throw _ => []
  end.

(** The store went from [before] to [after] by appending [items] one
    [push] at a time; with no item it was not touched. *)
Definition appendedTo (before after : option (list ContextItem))
           (items : list ContextItem) : Prop :=
  match items with
  | [] => after = before
  | _ :: _ => after = pushAll before items
  end.

End Batch.

Module Titles.
Import JS.

Definition isDigit (c : ascii) : bool :=
  ((48 <=? nat_of_ascii c) && (nat_of_ascii c <=? 57))%nat.

(** The number that a string of decimal digits denotes. *)
Definition readDecimal (s : str) : nat :=
  fold_left (fun acc c => (10 * acc + (nat_of_ascii c - 48))%nat) s 0%nat.

End Titles.

(* ================================================================== *)
(** ** [src/pages/api/upload.ts]: several files in one request         *)
(* ================================================================== *)

Module Concurrent.
Import JS TextProcessing Db Ingestion Batch.

(** A file of the request that reached its chunk stage, with the
    provider and the clocks as its callbacks see them. *)
Record Upload : Type := mkUpload {
  upload_file : ProcessedFile;
  upload_env : Env;
  upload_chunks : list str
}.

(** The chunk callbacks of all files: (index of the file, index of the
    chunk). *)
Definition slotsOf (f : nat) (u : Upload) : list (nat * nat) :=
  map (pair f) (seq 0 (length (upload_chunks u))).

Definition slots (uploads : list Upload) : list (nat * nat) :=
  flat_map (fun fu => slotsOf (fst fu) (snd fu))
           (combine (seq 0 (length uploads)) uploads).

(** What the callback [slot] does to the store when it resumes after
    its [await]: the resumptions of the callbacks of all files are
    interleaved, each runs its [get], [push], [set] without
    interruption. *)
Definition resumeSlot (uploads : list Upload) (ctx : option (list ContextItem))
           (slot : nat * nat) : option (list ContextItem) :=
  match nth_error uploads (fst slot) with
  | Some u =>
      match nth_error (upload_chunks u) (snd slot) with
      | Some chunk =>
          uploadResume (upload_env u) (upload_file u) (length (upload_chunks u))
                       ctx (snd slot, chunk)
      | None => ctx
      end
  | None => ctx
  end.

(** The store when [Promise.all] over the files is settled, the
    callbacks having resumed in the order [schedule]. *)
Definition uploadAll (uploads : list Upload) (schedule : list (nat * nat))
           (ctx : option (list ContextItem)) : option (list ContextItem) :=
  fold_left (resumeSlot uploads) schedule ctx.

(** The records of the chunks of one file that were embedded, in index
    order. *)
Definition storedBy (u : Upload) : list ContextItem :=
  flat_map (fileItems (upload_env u) (upload_file u) (length (upload_chunks u)))
           (indexed (upload_chunks u)).

(** The record, if any, of one callback. *)
Definition itemsAt (uploads : list Upload) (slot : nat * nat) : list ContextItem :=
  match nth_error uploads (fst slot) with
  | Some u =>
      match nth_error (upload_chunks u) (snd slot) with
      | Some chunk =>
          fileItems (upload_env u) (upload_file u) (length (upload_chunks u))
                    (snd slot, chunk)
      | None => []
      end
  | None => []
  end.

End Concurrent.

(* ================================================================== *)
(** ** Concrete inputs used below                                      *)
(* ================================================================== *)

Module Inputs.
Import JS TextProcessing Db Ingestion.

(** ["a".repeat(n)]. *)
Definition letters (n : Z) : str := repeat "a"%char (Z.to_nat n).

(** A text that both handlers send to the chunker (its estimate is 8476
    tokens): 3900 letters, one space, 30000 letters. *)
Definition oneSpaceText : str := letters 3900 ++ SP ++ letters 30000.

(** Ten thousand letters and no break of any kind. *)
Definition noBreakText : str := letters 10000.

(** Five letters, a paragraph break, four letters. *)
Definition paragraphText : str := lit "aaaaa" ++ LF2 ++ lit "aaaa".

(** A stored record with the embedding [e]. *)
Definition record (n : nat) (e : list number) : ContextItem :=
  mkItem (lit "id-" ++ decimal n) (lit "file") (lit "text") None None
         (Some (lit "/uploads/doc.txt")) (Some e)
         (lit "2024-01-01T00:00:00.000Z") None.

Definition query2 : list number := [1; 0]%float.

(** Five records of dimension 2; the second and the third are equally
    similar to [query2]. *)
Definition fiveRecords : list ContextItem :=
  [record 0 [0; 1]%float; record 1 [1; 0]%float; record 2 [2; 0]%float;
   record 3 [1; 1]%float; record 4 [-1; 0]%float].

(** A record of dimension 3 among records of dimension 2. *)
Definition mixedDimensions : list ContextItem :=
  [record 0 [1; 0]%float; record 1 [1; 0; 0]%float; record 2 [0; 1]%float].

Definition twoRecords : list ContextItem :=
  [record 0 [0; 1]%float; record 1 [1; 0]%float].

(** Finite coordinates whose squares overflow: the similarity of the
    second record to [bigQuery] is NaN. *)
Definition bigQuery : list number := [0x1p500; 0]%float.

Definition overflowing : list ContextItem :=
  [record 0 [0; 1]%float; record 1 [0x1p600; 0]%float; record 2 [1; 0]%float].

(** A provider that fails on the chunk of index 1 with the error [e]
    and answers every other chunk. *)
Definition failingAtOne (e : thrown) : Env :=
  mkEnv (fun i _ => if (i =? 1)%nat then Throw e else Ok [1; 0]%float)
        (fun _ => lit "1700000000000")
        (fun i => lit "r" ++ decimal i)
        (fun _ => lit "2023-11-14T22:13:20.000Z").

Definition rateLimited : Env := failingAtOne (ErrorObj (lit "rate limit")).
Definition unauthorized : Env := failingAtOne (ErrorObj (lit "unauthorized")).
Definition silent : Env := failingAtOne (ErrorObj []).

Definition notes : ProcessedFile :=
  mkFile (lit "notes.txt") (lit "/uploads/notes.txt") (lit "text/plain") 3.

Definition threeChunks : list str := [lit "x"; lit "y"; lit "z"].

Definition emptyWorld : World := mkWorld None [].

End Inputs.

Module Samples.
Import JS TextProcessing Db Ingestion Extraction Inputs.

(** A provider that answers every chunk. *)
Definition answering : Env :=
  mkEnv (fun _ _ => Ok [1; 0]%float)
        (fun _ => lit "1700000000000")
        (fun i => lit "r" ++ decimal i)
        (fun _ => lit "2023-11-14T22:13:20.000Z").

(** What [row[key]] finds on a plain object for two of the members of
    [Object.prototype]. *)
Definition inherited (key : str) : option str :=
  if streq key (lit "toString") then Some (lit "function toString() { [native code] }")
  else if streq key (lit "constructor")
       then Some (lit "function Object() { [native code] }")
       else None.

Definition plain (own : list (str * option str)) : Row := mkRow own inherited.

(** A disk on which nothing can be read or parsed; the CSV parser
    rejects. *)
Definition brokenDisk : Files :=
  mkFiles (fun _ => Throw (ErrorObj (lit "ENOENT")))
          (fun _ => Throw (ErrorObj (lit "bad XRef entry")))
          (fun _ => Throw OtherValue)
          (fun _ => Throw (ErrorObj (lit "File is password-protected")))
          (fun _ => CsvRejected (ErrorObj (lit "Row length does not match headers")))
          (fun _ => Throw (ErrorObj (lit "ENOENT"))).

(** A disk whose CSV files cannot be opened: the read stream fails. *)
Definition missingCsvDisk : Files :=
  mkFiles (fun _ => Throw (ErrorObj (lit "ENOENT")))
          (fun _ => Throw (ErrorObj (lit "bad XRef entry")))
          (fun _ => Throw OtherValue)
          (fun _ => Throw (ErrorObj (lit "File is password-protected")))
          (fun _ => CsvUnsettled)
          (fun _ => Throw (ErrorObj (lit "ENOENT"))).

(** A disk whose PDF files parse to one line feed, and whose workbooks
    and CSV files have one row. *)
Definition scannedDisk : Files :=
  mkFiles (fun _ => Ok 1024)
          (fun _ => Ok (Some LF))
          (fun _ => Ok (Some (lit "text")))
          (fun _ => Ok [mkSheet (lit "Fees")
                                [plain [(lit "plan", Some (lit "basic"));
                                        (lit "fee", Some (lit "0"))]]])
          (fun _ => CsvRows [plain [(lit "plan", Some (lit "basic"))]])
          (fun _ => Ok (lit "text")).

(** A page whose HTML holds a title and a script that writes the
    text, with no root element and no name of a framework: it is not
    taken for a client-side rendered one, the static scraper finds the
    title only, the browser finds the text. *)
Definition renderedSite : Scraping.Web :=
  Scraping.mkWeb
    (Ok (Scraping.Text
           (lit "<html><head><title>stub</title></head><body><script src=fees.js></script></body></html>"),
         200))
    (fun _ => Ok false)
    (fun _ => Ok (Scraping.mkPage [] (lit "stub")))
    (Ok (Scraping.mkPage (lit "Fees are listed below.") [])).

(** An address that answers 200 with a JSON body: axios hands the
    parsed object to the handler, and [isLikelyCSR] throws on it. *)
Definition jsonEndpoint : Scraping.Web :=
  Scraping.mkWeb
    (Ok (Scraping.Parsed true, 200))
    (fun _ => Throw (ErrorObj (lit "htmlContent.includes is not a function")))
    (fun _ => Ok (Scraping.mkPage [] []))
    (Ok (Scraping.mkPage (lit "{}") [])).

(** Services whose embedding of every review is [query2]. *)
Definition assistant : Analysis.Services :=
  Analysis.mkServices (fun _ => Ok query2)
                      (fun _ => Ok (lit "SENTIMENT: neutral"))
                      (fun _ => lit "50").


Definition ledger : ProcessedFile :=
  mkFile (lit "ledger.xlsx") (lit "/uploads/ledger.xlsx")
         (lit "application/vnd.openxmlformats-officedocument.spreadsheetml.sheet")
         2048.

(** Two files of one request, and an interleaving of their five chunk
    callbacks. *)
Definition twoUploads : list Concurrent.Upload :=
  [Concurrent.mkUpload notes rateLimited threeChunks;
   Concurrent.mkUpload ledger answering [lit "p"; lit "q"]].

Definition interleaved : list (nat * nat) :=
  [(1, 1); (0, 2); (0, 0); (1, 0); (0, 1)]%nat.

Definition scan : ProcessedFile :=
  mkFile (lit "scan.pdf") (lit "/uploads/scan.pdf") (lit "application/pdf") 4096.

Definition prices : ProcessedFile :=
  mkFile (lit "prices.csv") (lit "/uploads/prices.csv") (lit "text/csv") 512.

End Samples.

(* ================================================================== *)
(** ** Facts about the JavaScript fragment                             *)
(* ================================================================== *)

Module JSFacts.
Import JS.

Lemma lastIndexOf_down_le (s p : str) (k : nat) :
  lastIndexOf_down s p k <= Z.of_nat k.
Proof.
  induction k as [|k IH]; simpl; destruct (startsWith _ p); lia.
Qed.

Lemma lastIndexOf_le (s p : str) (pos : Z) :
  lastIndexOf s p pos <= Z.max pos 0.
Proof.
  unfold lastIndexOf.
  destruct (Z.ltb_spec (Z.min (Z.max pos 0) (len s - len p)) 0) as [Hneg|Hpos].
  - lia.
  - pose proof (lastIndexOf_down_le s p
                  (Z.to_nat (Z.min (Z.max pos 0) (len s - len p)))) as H.
    rewrite Z2Nat.id in H by assumption. lia.
Qed.

Lemma slice_len_le {A : Type} (s : list A) (a b : Z) :
  0 <= a -> a <= b -> len (slice s a b) <= b - a.
Proof.
  intros Ha Hab. unfold slice, rel_index, len.
  destruct (Z.ltb_spec a 0); [lia|].
  destruct (Z.ltb_spec b 0); [lia|].
  pose proof (firstn_le_length
                (Z.to_nat (Z.min b (Z.of_nat (length s))
                           - Z.min a (Z.of_nat (length s))))
                (skipn (Z.to_nat (Z.min a (Z.of_nat (length s)))) s)) as H1.
  lia.
Qed.

Lemma slice_firstn_skipn {A : Type} (s : list A) (a b : Z) :
  0 <= a -> a <= b ->
  slice s a b = firstn (Z.to_nat (b - a)) (skipn (Z.to_nat a) s).
Proof.
  intros Ha Hab. unfold slice, rel_index, len.
  destruct (Z.ltb_spec a 0); [lia|]. destruct (Z.ltb_spec b 0); [lia|].
  destruct (Z.le_gt_cases a (Z.of_nat (length s))) as [Hin|Hout].
  - rewrite (Z.min_l a) by assumption.
    destruct (Z.le_gt_cases b (Z.of_nat (length s))).
    + now rewrite Z.min_l.
    + rewrite Z.min_r by lia.
      rewrite !firstn_all2; try reflexivity; rewrite length_skipn; lia.
  - rewrite !Z.min_r by lia.
    rewrite (skipn_all2 s (n := Z.to_nat a)) by lia.
    rewrite skipn_all2 by lia. now rewrite !firstn_nil.
Qed.

Lemma firstn_extend {A : Type} (l : list A) (a b c : nat) :
  (a <= b)%nat -> (b <= c)%nat ->
  firstn b l ++ skipn (b - a) (firstn (c - a) (skipn a l)) = firstn c l.
Proof.
  intros Hab Hbc.
  rewrite skipn_firstn_comm, skipn_skipn.
  replace (b - a + a)%nat with b by lia.
  replace (c - a - (b - a))%nat with (c - b)%nat by lia.
  rewrite <- (firstn_skipn b l) at 3.
  rewrite firstn_app, firstn_firstn, Nat.min_r by assumption.
  f_equal. rewrite length_firstn.
  destruct (Nat.le_gt_cases b (length l)).
  - now rewrite Nat.min_l.
  - rewrite (skipn_all2 l (n := b)) by lia. now rewrite !firstn_nil.
Qed.

Lemma startsWith_absent : forall (p s : str),
  Exists (fun c => ~ In c s) p -> startsWith s p = false.
Proof.
  induction p as [|a p IH]; intros s H; [inversion H|].
  destruct s as [|b s]; [reflexivity|]. simpl.
  apply Exists_cons in H. destruct H as [Ha | Hp].
  - replace (Ascii.eqb a b) with false; [reflexivity|].
    symmetry. apply Ascii.eqb_neq. intros ->. apply Ha. now left.
  - rewrite IH; [apply andb_false_r|].
    eapply Exists_impl; [|exact Hp]. intros c Hc Hin. apply Hc. now right.
Qed.

Lemma lastIndexOf_absent (s p : str) (pos : Z) :
  Exists (fun c => ~ In c s) p -> lastIndexOf s p pos = -1.
Proof.
  intros H. unfold lastIndexOf. destruct (_ <? 0); [reflexivity|].
  induction (Z.to_nat _) as [|k IH]; simpl.
  - now rewrite startsWith_absent.
  - rewrite startsWith_absent; [exact IH|].
    eapply Exists_impl; [|exact H]. intros c Hc Hin. apply Hc.
    rewrite <- (firstn_skipn (S k) s). apply in_or_app. now right.
Qed.

End JSFacts.

(* ================================================================== *)
(** ** The chunker and the token estimate                              *)
(* ================================================================== *)

Module TextProcessingFacts.
Import JS TextProcessing Chunking JSFacts Inputs.

(** *** The loop, one iteration at a time *)

Lemma runLoop_running fuel text C ov st :
  loopGuard text st = true ->
  runLoop (S fuel) text C ov st = runLoop fuel text C ov (loopBody text C ov st).
Proof. intros H. simpl. now rewrite H. Qed.

Lemma runLoop_exhausted text C ov st :
  loopGuard text st = true -> runLoop 0 text C ov st = None.
Proof. intros H. simpl. now rewrite H. Qed.

Lemma iterate_running n text C ov st :
  loopGuard text st = true ->
  iterate (S n) text C ov st = iterate n text C ov (loopBody text C ov st).
Proof. intros H. simpl. now rewrite H. Qed.

(** What the loop returns is what it has pushed when it stops. *)
Lemma runLoop_iterate fuel : forall text C ov st cs,
  runLoop fuel text C ov st = Some cs ->
  cs = chunks (iterate fuel text C ov st).
Proof.
  induction fuel as [|fuel IH]; intros text C ov st cs H.
  - simpl in H. destruct (loopGuard text st); [discriminate|].
    injection H as <-. reflexivity.
  - simpl in *. destruct (loopGuard text st).
    + now apply IH.
    + now injection H as <-.
Qed.

(** *** What progress would give *)

(** If the start index advanced at every iteration, the loop would end
    within [len text] iterations. *)
Lemma runLoop_terminates_when_advancing text C ov :
  (forall s, 0 <= s < len text -> s < nextStart ov (chunkEnd text C s)) ->
  forall fuel st,
    0 <= startIndex st ->
    len text - startIndex st <= Z.of_nat fuel ->
    exists cs, runLoop fuel text C ov st = Some cs.
Proof.
  intros Hadv. induction fuel as [|fuel IH]; intros st Hs Hfuel.
  - simpl. unfold loopGuard. destruct (Z.ltb_spec (startIndex st) (len text)).
    + lia.
    + eauto.
  - simpl. unfold loopGuard. destruct (Z.ltb_spec (startIndex st) (len text)).
    + specialize (Hadv (startIndex st) (conj Hs H)).
      apply IH; unfold loopBody; simpl; lia.
    + eauto.
Qed.

(** The run on [noBreakText] with the default parameters: three hard
    cuts, of 4000, 4000 and 2400 characters. *)
Lemma splitTextIntoChunks_hard_cuts :
  option_map (map (@length ascii))
             (splitTextIntoChunks 3 noBreakText defaultChunkSize defaultOverlap)
  = Some [4000; 4000; 2400]%nat.
Proof. vm_compute. reflexivity. Qed.

(** *** Texts without breaks *)

Lemma runLoop_stops fuel : forall text C ov st cs,
  runLoop fuel text C ov st = Some cs ->
  loopGuard text (iterate fuel text C ov st) = false.
Proof.
  induction fuel as [|fuel IH]; intros text C ov st cs H; simpl in *.
  - destruct (loopGuard text st) eqn:E; [discriminate|reflexivity].
  - destruct (loopGuard text st) eqn:E; [now apply IH with (cs := cs)|exact E].
Qed.

Lemma chunkEnd_breakFree text C s :
  breakFree text -> 0 <= s -> chunkEnd text C s = s + C.
Proof.
  intros [Hsp Hlf] Hs. unfold chunkEnd.
  destruct (s + C <? len text); [|reflexivity].
  rewrite !lastIndexOf_absent.
  - destruct (Z.ltb_spec s (-1)); [lia|]. now rewrite !andb_false_l.
  - apply Exists_cons_hd. exact Hsp.
  - apply Exists_cons_tl, Exists_cons_hd. exact Hsp.
  - apply Exists_cons_hd. exact Hlf.
Qed.

Lemma nextStart_hard_cut ov C s :
  0 <= s -> 0 <= ov < C -> nextStart ov (s + C) = s + C - ov.
Proof.
  intros Hs Hov. unfold nextStart.
  destruct (Z.leb_spec (s + C - ov) 0); [lia|].
  destruct (Z.eqb_spec (s + C) (s + C - ov)); simpl; lia.
Qed.

Lemma removeOverlaps_snoc ov cs c :
  cs <> [] ->
  removeOverlaps ov (cs ++ [c]) = removeOverlaps ov cs ++ skipn (Z.to_nat ov) c.
Proof.
  destruct cs as [|c0 cs]; [congruence|]. intros _. simpl.
  now rewrite map_app, concat_app, app_assoc; simpl; rewrite app_nil_r.
Qed.

(** From the second iteration on, what the chunks give back once the
    overlaps are removed is the text up to the end of the last chunk. *)
Lemma iterate_breakFree text C ov :
  breakFree text -> 0 <= ov < C ->
  forall n st,
    0 <= startIndex st ->
    chunks st <> [] ->
    removeOverlaps ov (chunks st) = firstn (Z.to_nat (startIndex st + ov)) text ->
    removeOverlaps ov (chunks (iterate n text C ov st))
    = firstn (Z.to_nat (startIndex (iterate n text C ov st) + ov)) text.
Proof.
  intros Hfree Hov. induction n as [|n IH]; intros st Hs Hne Hinv; [exact Hinv|].
  simpl. destruct (loopGuard text st); [|exact Hinv].
  assert (Hbody : loopBody text C ov st
                  = mkLoop (startIndex st + C - ov)
                           (chunks st ++ [slice text (startIndex st)
                                                (startIndex st + C)])).
  { unfold loopBody.
    now rewrite (chunkEnd_breakFree C Hfree Hs), nextStart_hard_cut. }
  rewrite Hbody. apply IH; cbn [startIndex chunks].
  - lia.
  - destruct (chunks st); discriminate.
  - rewrite removeOverlaps_snoc, Hinv by assumption.
    rewrite slice_firstn_skipn by lia.
    replace (Z.to_nat ov)
      with (Z.to_nat (startIndex st + ov) - Z.to_nat (startIndex st))%nat by lia.
    replace (Z.to_nat (startIndex st + C - startIndex st))
      with (Z.to_nat (startIndex st + C) - Z.to_nat (startIndex st))%nat by lia.
    rewrite firstn_extend by lia. f_equal. lia.
Qed.

(** On a text without breaks and with an overlap below the chunk size the
    chunker returns, within [len text] iterations, chunks from which the
    text is recovered by removing the overlaps. *)
Lemma splitTextIntoChunks_breakFree_roundtrip text C ov :
  breakFree text -> 0 <= ov < C ->
  exists cs,
    splitTextIntoChunks (Z.to_nat (len text)) text C ov = Some cs
    /\ removeOverlaps ov cs = text.
Proof.
  intros Hfree Hov. unfold splitTextIntoChunks.
  destruct (Z.leb_spec (len text) C) as [Hshort|Hlong].
  { rewrite orb_true_r. exists [text]. split; [reflexivity|].
    simpl. apply app_nil_r. }
  destruct text as [|c0 text']; [unfold len in Hlong; simpl in Hlong; lia|].
  simpl orb. cbv iota. set (text := c0 :: text') in *.
  destruct (@runLoop_terminates_when_advancing text C ov) with
    (fuel := Z.to_nat (len text)) (st := initial) as [cs Hcs].
  - intros s Hs. rewrite (chunkEnd_breakFree C Hfree), nextStart_hard_cut; lia.
  - simpl. lia.
  - unfold len. simpl startIndex. lia.
  - exists cs. split; [exact Hcs|].
    pose proof (runLoop_stops _ _ _ _ _ Hcs) as Hstop.
    apply runLoop_iterate in Hcs. subst cs.
    destruct (Z.to_nat (len text)) as [|fuel] eqn:Hfuel; [lia|].
    assert (Hg : loopGuard text initial = true).
    { unfold loopGuard. simpl. apply Z.ltb_lt. lia. }
    rewrite iterate_running in * by exact Hg.
    assert (Hbody : loopBody text C ov initial = mkLoop (C - ov) [slice text 0 C]).
    { unfold loopBody, initial. simpl startIndex. simpl chunks.
      rewrite (chunkEnd_breakFree C Hfree) by lia.
      now rewrite (@nextStart_hard_cut ov C 0) by lia. }
    rewrite Hbody in *.
    rewrite (@iterate_breakFree text C ov Hfree Hov fuel).
    + apply firstn_all2. unfold loopGuard in Hstop.
      apply Z.ltb_ge in Hstop. unfold len in Hstop. lia.
    + simpl. lia.
    + discriminate.
    + simpl. rewrite app_nil_r, slice_firstn_skipn by lia.
      simpl. f_equal. lia.
Qed.

(** *** A start index that the loop body maps to itself *)

(** When the next start index equals the current one and the guard
    holds, no number of iterations ends the loop. *)
Lemma runLoop_fixed_start text C ov s :
  s < len text ->
  nextStart ov (chunkEnd text C s) = s ->
  forall fuel cs, runLoop fuel text C ov (mkLoop s cs) = None.
Proof.
  intros Hlt Hfix fuel.
  assert (Hg : forall cs, loopGuard text (mkLoop s cs) = true).
  { intros cs. unfold loopGuard. simpl. now apply Z.ltb_lt. }
  induction fuel as [|fuel IH]; intros cs.
  - now apply runLoop_exhausted.
  - rewrite runLoop_running by apply Hg.
    unfold loopBody. simpl startIndex. rewrite Hfix. apply IH.
Qed.

Lemma iterate_fixed_start text C ov s :
  s < len text ->
  nextStart ov (chunkEnd text C s) = s ->
  forall n cs,
    iterate n text C ov (mkLoop s cs)
    = mkLoop s (cs ++ repeat (slice text s (chunkEnd text C s)) n).
Proof.
  intros Hlt Hfix n.
  assert (Hg : forall cs, loopGuard text (mkLoop s cs) = true).
  { intros cs. unfold loopGuard. simpl. now apply Z.ltb_lt. }
  induction n as [|n IH]; intros cs.
  - simpl. now rewrite app_nil_r.
  - rewrite iterate_running by apply Hg.
    unfold loopBody. simpl startIndex. simpl chunks. rewrite Hfix, IH.
    now rewrite <- app_assoc.
Qed.

(** The run on [oneSpaceText] with the default parameters. *)
Lemma oneSpaceText_len : len oneSpaceText = 33901.
Proof. vm_compute. reflexivity. Qed.

Lemma oneSpaceText_first : chunkEnd oneSpaceText 4000 0 = 3901.
Proof. vm_compute. reflexivity. Qed.

Lemma oneSpaceText_second : chunkEnd oneSpaceText 4000 3701 = 3901.
Proof. vm_compute. reflexivity. Qed.

Lemma oneSpaceText_enters_loop fuel :
  splitTextIntoChunks fuel oneSpaceText 4000 200
  = runLoop fuel oneSpaceText 4000 200 initial.
Proof.
  unfold splitTextIntoChunks.
  replace (len oneSpaceText <=? 4000) with false
    by (rewrite oneSpaceText_len; reflexivity).
  reflexivity.
Qed.

Lemma initial_guard : loopGuard oneSpaceText initial = true.
Proof. unfold loopGuard. rewrite oneSpaceText_len. reflexivity. Qed.

Lemma oneSpaceText_step :
  loopBody oneSpaceText 4000 200 initial
  = mkLoop 3701 [slice oneSpaceText 0 3901].
Proof.
  unfold loopBody, initial. simpl startIndex. simpl chunks.
  rewrite oneSpaceText_first. reflexivity.
Qed.

(** No bound on the iterations lets the chunker return on
    [oneSpaceText]. *)
Lemma oneSpaceText_never_returns fuel :
  splitTextIntoChunks fuel oneSpaceText defaultChunkSize defaultOverlap = None.
Proof.
  unfold defaultChunkSize, defaultOverlap.
  rewrite oneSpaceText_enters_loop.
  destruct fuel as [|fuel].
  - apply runLoop_exhausted, initial_guard.
  - rewrite runLoop_running by apply initial_guard.
    rewrite oneSpaceText_step.
    apply runLoop_fixed_start.
    + rewrite oneSpaceText_len. lia.
    + rewrite oneSpaceText_second. reflexivity.
Qed.

(** Thirty letters with chunk size 10 and overlap 10: the second chunk
    starts at 10 and ends at 20, and the next start index is 10 again. *)
Lemma thirtyLetters_never_returns fuel :
  splitTextIntoChunks fuel (letters 30) 10 10 = None.
Proof.
  unfold splitTextIntoChunks.
  change (runLoop fuel (letters 30) 10 10 initial = None).
  assert (Hg : loopGuard (letters 30) initial = true) by reflexivity.
  destruct fuel as [|fuel].
  - now apply runLoop_exhausted.
  - rewrite runLoop_running by exact Hg.
    change (loopBody (letters 30) 10 10 initial)
      with (mkLoop 10 [slice (letters 30) 0 10]).
    apply runLoop_fixed_start; [|reflexivity].
    vm_compute. reflexivity.
Qed.

(** C2.  The loop that [splitTextIntoChunks] runs on [oneSpaceText] with
    the default chunk size 4000 and overlap 200 never ends: the second
    chunk starts at 3701 and ends at 3901, the next start index
    3901 - 200 is 3701 again, the guard [startIndex <= 0 || endIndex ===
    startIndex] does not fire, and no bound on the iterations lets the
    function return.  The same happens on thirty letters without a break
    when the overlap equals the chunk size 10. *)
Theorem splitTextIntoChunks_no_progress :
  chunkEnd oneSpaceText defaultChunkSize 3701 = 3901
  /\ nextStart defaultOverlap 3901 = 3701
  /\ (forall fuel,
        splitTextIntoChunks fuel oneSpaceText defaultChunkSize defaultOverlap
        = None)
  /\ (forall fuel, splitTextIntoChunks fuel (letters 30) 10 10 = None).
Proof.
  split; [apply oneSpaceText_second|]. split; [reflexivity|]. split.
  - apply oneSpaceText_never_returns.
  - apply thirtyLetters_never_returns.
Qed.

(** C5.  On [oneSpaceText] with the default parameters the chunker
    returns no finite sequence: after [n + 1] iterations it has pushed
    the first chunk and [n] copies of the 200 characters from 3701 to
    3901, and its guard still holds. *)
Theorem splitTextIntoChunks_unbounded_output :
  forall n,
    let st := iterate (S n) oneSpaceText defaultChunkSize defaultOverlap initial in
    st = mkLoop 3701 (slice oneSpaceText 0 3901
                        :: repeat (slice oneSpaceText 3701 3901) n)
    /\ loopGuard oneSpaceText st = true
    /\ length (chunks st) = S n.
Proof.
  intros n. unfold defaultChunkSize, defaultOverlap.
  assert (E : iterate (S n) oneSpaceText 4000 200 initial
              = mkLoop 3701 (slice oneSpaceText 0 3901
                               :: repeat (slice oneSpaceText 3701 3901) n)).
  { rewrite iterate_running by apply initial_guard.
    rewrite oneSpaceText_step.
    rewrite iterate_fixed_start.
    - rewrite oneSpaceText_second. reflexivity.
    - rewrite oneSpaceText_len. lia.
    - rewrite oneSpaceText_second. reflexivity. }
  cbv zeta. rewrite E. split; [reflexivity|]. split.
  - unfold loopGuard. simpl startIndex. rewrite oneSpaceText_len. reflexivity.
  - simpl chunks. simpl length. now rewrite repeat_length.
Qed.

(** *** Bounds on the indices *)

Lemma chunkEnd_bounds text C s :
  0 <= s -> 0 < C -> s < chunkEnd text C s <= s + C + 2.
Proof.
  intros Hs HC. unfold chunkEnd.
  pose proof (lastIndexOf_le text LF2 (s + C)) as H1.
  pose proof (lastIndexOf_le text DOT_SP (s + C)) as H2.
  pose proof (lastIndexOf_le text SP (s + C)) as H3.
  destruct (s + C <? len text); [|lia].
  repeat match goal with
         | |- context [if ?b then _ else _] => destruct b eqn:?
         end;
    rewrite ?andb_true_iff, ?Z.ltb_lt in *; lia.
Qed.

Lemma nextStart_pos ov e : 0 < e -> 0 < nextStart ov e.
Proof.
  intros He. unfold nextStart.
  destruct ((e - ov <=? 0) || (e =? e - ov)) eqn:E; [assumption|].
  apply orb_false_iff in E. destruct E as [E _].
  apply Z.leb_gt in E. exact E.
Qed.

(** Every chunk the loop pushes is at most [chunkSize + 2] long, and the
    start index never becomes negative. *)
Lemma iterate_invariant text C ov :
  0 < C ->
  forall n st,
    0 <= startIndex st ->
    Forall (fun c => len c <= C + 2) (chunks st) ->
    0 <= startIndex (iterate n text C ov st)
    /\ Forall (fun c => len c <= C + 2) (chunks (iterate n text C ov st)).
Proof.
  intros HC. induction n as [|n IH]; intros st Hs Hc; [now split|].
  simpl. destruct (loopGuard text st); [|now split].
  pose proof (chunkEnd_bounds text Hs HC) as Hb.
  apply IH; unfold loopBody; simpl.
  - pose proof (@nextStart_pos ov (chunkEnd text C (startIndex st))). lia.
  - apply Forall_app. split; [assumption|].
    constructor; [|constructor].
    pose proof (@slice_len_le _ text (startIndex st)
                  (chunkEnd text C (startIndex st))). lia.
Qed.

(** C6, as the code has it.  A text no longer than [chunkSize] comes back
    as the single chunk [[text]].  For a longer text and a positive
    [chunkSize], every chunk the loop pushes, after any number of
    iterations and so in any sequence it returns, is at most
    [chunkSize + max 2 overlap] long: the cut may include the two
    characters of a break found exactly at the target index. *)
Theorem chunk_size_bound text chunkSize overlap :
  (len text <= chunkSize ->
   forall fuel, splitTextIntoChunks fuel text chunkSize overlap = Some [text])
  /\
  (0 < chunkSize -> chunkSize < len text ->
   (forall n, Forall (fun c => len c <= chunkSize + Z.max 2 overlap)
                     (chunks (iterate n text chunkSize overlap initial)))
   /\
   (forall fuel cs,
       splitTextIntoChunks fuel text chunkSize overlap = Some cs ->
       Forall (fun c => len c <= chunkSize + Z.max 2 overlap) cs)).
Proof.
  split.
  - intros Hle fuel. unfold splitTextIntoChunks.
    apply Z.leb_le in Hle. rewrite Hle. now rewrite orb_true_r.
  - intros HC Hlong.
    assert (Hall : forall n, Forall (fun c => len c <= chunkSize + Z.max 2 overlap)
                               (chunks (iterate n text chunkSize overlap initial))).
    { intros n.
      destruct (@iterate_invariant text chunkSize overlap HC n initial) as [_ H].
      - simpl. lia.
      - constructor.
      - eapply Forall_impl; [|exact H]. simpl. intros c Hc. lia. }
    split; [exact Hall|].
    intros fuel cs H. unfold splitTextIntoChunks in H.
    destruct text as [|c text'].
    + unfold len in Hlong; simpl in Hlong; lia.
    + apply Z.leb_gt in Hlong. rewrite Hlong in H. simpl in H.
      apply runLoop_iterate in H. subst cs. apply Hall.
Qed.

(** C6, as stated, fails when [overlap] is below 2: with chunk size 5
    and overlap 0 the first chunk of [paragraphText] has 7 characters and
    is not the last one. *)
Lemma chunk_size_bound_fails_for_small_overlap :
  splitTextIntoChunks 2 paragraphText 5 0
  = Some [lit "aaaaa" ++ LF2; lit "aaaa"]
  /\ 5 + 0 < len (lit "aaaaa" ++ LF2).
Proof. split; vm_compute; reflexivity. Qed.

(** The same text with overlap 2 stays within [5 + 2]. *)
Lemma chunk_size_bound_witness :
  splitTextIntoChunks 0 (lit "aaaa") 5 2 = Some [lit "aaaa"]
  /\ Forall (fun c => len c <= 5 + Z.max 2 2)
            (chunks (iterate 3 paragraphText 5 2 initial)).
Proof.
  split.
  - apply (proj1 (chunk_size_bound (lit "aaaa") 5 2)). vm_compute. discriminate.
  - apply (proj2 (chunk_size_bound paragraphText 5 2)).
    + lia.
    + vm_compute. reflexivity.
Defined.

(** *** The token estimate *)

Lemma Qceiling_quarter (n : Z) : Qceiling (inject_Z n / 4) = - ((- n) / 4).
Proof.
  unfold Qceiling, Qfloor, Qdiv, Qmult, Qinv, Qopp, inject_Z. simpl.
  rewrite Z.mul_1_r. reflexivity.
Qed.

(** C8.  [estimateTokenCount(text)] is the ceiling of a quarter of the
    length: the non-negative integer [n] with [4 (n - 1) < length <= 4 n];
    it is 0 for an absent or empty text, and 1000 for 4000 characters. *)
Theorem estimateTokenCount_is_ceiling :
  (forall text : str,
      0 <= estimateTokenCount (Some text)
      /\ 4 * (estimateTokenCount (Some text) - 1) < len text
         <= 4 * estimateTokenCount (Some text))
  /\ estimateTokenCount None = 0
  /\ estimateTokenCount (Some []) = 0
  /\ estimateTokenCount (Some (letters 4000)) = 1000.
Proof.
  split; [|split; [reflexivity|split; [reflexivity|vm_compute; reflexivity]]].
  intros text. unfold estimateTokenCount.
  destruct text as [|c text']; [unfold len; simpl; lia|].
  rewrite Qceiling_quarter.
  set (n := len (c :: text')).
  assert (0 <= n) by (unfold n, len; lia).
  pose proof (Z.div_mod (- n) 4 ltac:(lia)).
  pose proof (Z.mod_pos_bound (- n) 4 ltac:(lia)).
  lia.
Qed.

End TextProcessingFacts.

(* ================================================================== *)
(** ** Cosine similarity and retrieval                                 *)
(* ================================================================== *)

Module DbFacts.
Import JS Db Ranking JSFacts Inputs.

(** *** The accumulators of [cosineSimilarity] *)

Lemma fold_accumulate_shift a A b B : forall l acc,
  fold_left (accumulate (a :: A) (b :: B)) (map S l) acc
  = fold_left (accumulate A B) l acc.
Proof. induction l as [|i l IH]; intros acc; simpl; [reflexivity|apply IH]. Qed.

Lemma fold_accumulate_normA : forall A B acc,
  normA (fold_left (accumulate A B) (seq 0 (length A)) acc)
  = fold_left (fun s x => (s + x * x)%float) A (normA acc).
Proof.
  induction A as [|a A IH]; intros B acc; [reflexivity|].
  cbn [length seq fold_left]. rewrite <- seq_shift.
  destruct B as [|b B].
  - (* reading [B] past its end *)
    assert (E : forall l acc',
               normA (fold_left (accumulate (a :: A) []) (map S l) acc')
               = normA (fold_left (accumulate A []) l acc')).
    { induction l as [|i l IHl]; intros acc'; [reflexivity|].
      cbn [map fold_left]. rewrite IHl. f_equal. f_equal.
      unfold accumulate, at_. destruct i; reflexivity. }
    rewrite E, IH. reflexivity.
  - rewrite fold_accumulate_shift, IH. reflexivity.
Qed.

Lemma fold_accumulate_normB : forall A B acc,
  length A = length B ->
  normB (fold_left (accumulate A B) (seq 0 (length A)) acc)
  = fold_left (fun s x => (s + x * x)%float) B (normB acc).
Proof.
  induction A as [|a A IH]; intros [|b B] acc Hlen; try discriminate;
    [reflexivity|].
  cbn [length seq fold_left]. rewrite <- seq_shift.
  rewrite fold_accumulate_shift, IH by (simpl in Hlen; lia). reflexivity.
Qed.

Lemma cosineSums_normA A B : normA (cosineSums A B) = sumSquares A.
Proof. unfold cosineSums. now rewrite fold_accumulate_normA. Qed.

Lemma cosineSums_normB A B :
  length A = length B -> normB (cosineSums A B) = sumSquares B.
Proof. intros H. unfold cosineSums. now rewrite fold_accumulate_normB. Qed.

(** A vector of zeros, of either sign, has zero norm. *)
Lemma zeros_zeroNorm v : Forall isZero v -> zeroNorm v.
Proof.
  unfold zeroNorm, sumSquares.
  assert (H : forall v, Forall isZero v ->
              fold_left (fun acc x => (acc + x * x)%float) v 0%float = 0%float).
  { induction v0 as [|x v0 IH]; intros Hz; [reflexivity|].
    inversion Hz as [|? ? Hx Hv]; subst. simpl.
    destruct Hx as [-> | ->]; (etransitivity; [|apply IH, Hv]); reflexivity. }
  intros Hz. rewrite H by assumption. reflexivity.
Qed.

(** C9.  For vectors of equal length, if either has zero norm then
    [cosineSimilarity] returns 0: it does not throw and does not reach
    the division. *)
Theorem cosineSimilarity_zero_norm A B :
  length A = length B ->
  zeroNorm A \/ zeroNorm B ->
  cosineSimilarity A B = Ok 0%float.
Proof.
  intros Hlen Hz. unfold cosineSimilarity.
  rewrite Hlen, Nat.eqb_refl. simpl negb. cbv iota.
  rewrite cosineSums_normA, cosineSums_normB by assumption.
  unfold zeroNorm in Hz. destruct Hz as [Hz | Hz]; rewrite Hz.
  - reflexivity.
  - now rewrite orb_true_r.
Qed.

Lemma cosineSimilarity_zero_norm_witness :
  cosineSimilarity [1; 2]%float [0; (-0)]%float = Ok 0%float.
Proof.
  apply cosineSimilarity_zero_norm.
  - reflexivity.
  - right. apply zeros_zeroNorm.
    apply Forall_cons; [left; reflexivity|].
    apply Forall_cons; [right; reflexivity|]. apply Forall_nil.
Defined.

(** *** The length check *)

Lemma cosineSimilarity_mismatch q e :
  length q <> length e -> cosineSimilarity q e = Throw lengthMismatch.
Proof.
  intros H. unfold cosineSimilarity.
  destruct (Nat.eqb_spec (length q) (length e)); [contradiction|reflexivity].
Qed.

Lemma cosineSimilarity_defined q e :
  length q = length e -> exists s, cosineSimilarity q e = Ok s.
Proof.
  intros H. unfold cosineSimilarity. rewrite H, Nat.eqb_refl. simpl.
  destruct (_ || _); eauto.
Qed.

Lemma cosineSimilarity_throws q e t :
  cosineSimilarity q e = Throw t -> t = lengthMismatch.
Proof.
  unfold cosineSimilarity.
  destruct (negb _); [congruence|]. destruct (_ || _); discriminate.
Qed.

Lemma scoreAll_cons c cs q :
  scoreAll (c :: cs) q
  = if hasEmbedding c
    then bind (cosineSimilarity q (embeddingOf c))
              (fun s => bind (scoreAll cs q)
                             (fun ys => Ok (withSimilarity c s :: ys)))
    else scoreAll cs q.
Proof.
  unfold scoreAll. simpl. destruct (hasEmbedding c); [|reflexivity].
  simpl. destruct (cosineSimilarity q (embeddingOf c)); reflexivity.
Qed.

(** One record of another dimension makes the scoring throw. *)
Lemma scoreAll_mismatch q cs :
  Exists (mismatched q) cs -> scoreAll cs q = Throw lengthMismatch.
Proof.
  induction cs as [|c cs IH]; intros H; [inversion H|].
  rewrite scoreAll_cons.
  apply Exists_cons in H. destruct H as [[Hemb Hlen] | Htail].
  - rewrite Hemb, cosineSimilarity_mismatch by congruence. reflexivity.
  - rewrite (IH Htail). destruct (hasEmbedding c); [|reflexivity].
    destruct (cosineSimilarity q (embeddingOf c)) as [s|t] eqn:E; simpl.
    + reflexivity.
    + now rewrite (cosineSimilarity_throws _ _ E).
Qed.

(** With matching dimensions the scoring returns [scored]. *)
Lemma scoreAll_match q cs :
  dimensionsMatch q cs -> scoreAll cs q = Ok (scored cs q).
Proof.
  unfold dimensionsMatch, scored.
  induction cs as [|c cs IH]; intros H; [reflexivity|].
  inversion H as [|? ? Hc Hcs]; subst.
  rewrite scoreAll_cons. simpl. destruct (hasEmbedding c) eqn:Hemb.
  - destruct (@cosineSimilarity_defined q (embeddingOf c)) as [s Hs].
    { symmetry. now apply Hc. }
    unfold similarityTo. simpl. rewrite Hs, (IH Hcs). reflexivity.
  - now apply IH.
Qed.

(** C1, as the code has it.  A record with a non-empty embedding of
    another dimension than the query does not drop out of the ranking:
    for every store that holds one, [findSimilarContexts] throws
    "Vectors must have the same length" and returns no ranking. *)
Theorem findSimilarContexts_mismatch_throws cs q limit :
  Exists (mismatched q) cs ->
  findSimilarContexts (Some cs) q limit = Throw lengthMismatch.
Proof.
  intros H. destruct cs as [|c cs]; [inversion H|].
  unfold findSimilarContexts. now rewrite (scoreAll_mismatch H).
Qed.

Lemma findSimilarContexts_mismatch_throws_witness :
  findSimilarContexts (Some [record 7 [1; 0; 0]%float]) query2 5
  = Throw lengthMismatch.
Proof.
  apply findSimilarContexts_mismatch_throws.
  apply Exists_cons_hd. split; [reflexivity|]. simpl. discriminate.
Defined.

(** C1, as stated, fails on [mixedDimensions]: two of its records match
    the query and one does not, and the call returns no records. *)
Lemma findSimilarContexts_mismatch_not_excluded :
  ~ exists ranked,
      findSimilarContexts (Some mixedDimensions) query2 defaultLimit = Ok ranked.
Proof.
  intros [ranked H]. vm_compute in H. discriminate H.
Qed.

(** *** The final [slice] *)

Lemma findSimilarContexts_rankAll contexts q limit :
  findSimilarContexts contexts q limit
  = bind (rankAll contexts q) (fun ranked => Ok (slice ranked 0 limit)).
Proof.
  destruct contexts as [[|c cs]|].
  - simpl. unfold slice. now rewrite skipn_nil, firstn_nil.
  - unfold findSimilarContexts, rankAll.
    destruct (scoreAll (c :: cs) q); reflexivity.
  - simpl. unfold slice. now rewrite skipn_nil, firstn_nil.
Qed.

Lemma rel_index_zero n : 0 <= n -> rel_index n 0 = 0.
Proof. intros H. unfold rel_index. destruct (Z.ltb_spec 0 0); lia. Qed.

Lemma slice_from_zero {A : Type} (l : list A) (e : Z) :
  slice l 0 e = firstn (Z.to_nat (rel_index (len l) e)) l.
Proof.
  unfold slice. rewrite rel_index_zero by (unfold len; lia).
  now rewrite Z.sub_0_r.
Qed.



Lemma slice_to_limit {A : Type} (l : list A) (limit : Z) :
  0 <= limit -> slice l 0 limit = firstn (Z.to_nat limit) l.
Proof.
  intros HL. rewrite slice_from_zero.
  unfold rel_index, len. destruct (Z.ltb_spec limit 0); [lia|].
  destruct (Z.le_gt_cases limit (Z.of_nat (length l))).
  - now rewrite Z.min_l.
  - rewrite Z.min_r, Nat2Z.id by lia.
    rewrite firstn_all. symmetry. apply firstn_all2. lia.
Qed.

(** *** The sort *)

Lemma insertSorted_perm x : forall l, Permutation (insertSorted x l) (x :: l).
Proof.
  induction l as [|y l IH]; simpl; [reflexivity|].
  destruct (sortsAfter x y); [|reflexivity].
  rewrite IH. apply perm_swap.
Qed.

Lemma sort_perm : forall l, Permutation (sort l) l.
Proof.
  induction l as [|x l IH]; simpl; [constructor|].
  rewrite insertSorted_perm. now constructor.
Qed.

Lemma consistentOn_Consistent l : consistentOn l = true -> Consistent l.
Proof.
  unfold consistentOn, Consistent. intros H a b c Ha Hb Hc.
  rewrite forallb_forall in H. specialize (H a Ha).
  rewrite forallb_forall in H. specialize (H b Hb).
  rewrite forallb_forall in H. exact (H c Hc).
Qed.

Section ConsistentComparator.
Variable S : list ContextItem.
Hypothesis HS : Consistent S.

Lemma sortsAfter_lower a b :
  In a S -> In b S -> sortsAfter a b = lower a b.
Proof.
  intros Ha Hb. pose proof (HS _ _ _ Ha Hb Ha) as H. unfold consistentAt in H.
  apply andb_true_iff in H. destruct H as [H _].
  apply andb_true_iff in H. destruct H as [H _].
  now apply eqb_prop.
Qed.

Lemma lower_asym a b :
  In a S -> In b S -> lower a b = true -> lower b a = false.
Proof.
  intros Ha Hb Hab. pose proof (HS _ _ _ Ha Hb Ha) as H. unfold consistentAt in H.
  rewrite Hab in H. destruct (lower b a); [|reflexivity].
  destruct (sortsAfter a b); discriminate H.
Qed.

Lemma not_lower_trans a b c :
  In a S -> In b S -> In c S ->
  lower a b = false -> lower b c = false -> lower a c = false.
Proof.
  intros Ha Hb Hc Hab Hbc. pose proof (HS _ _ _ Ha Hb Hc) as H.
  unfold consistentAt in H. rewrite Hab, Hbc in H.
  destruct (lower a c); [|reflexivity].
  destruct (sortsAfter a b), (lower b a); discriminate H.
Qed.

Lemma insertSorted_descending x : forall l,
  In x S -> incl l S ->
  descending l -> descending (insertSorted x l).
Proof.
  unfold descending.
  induction l as [|y l IH]; intros Hx Hl Hsorted; simpl.
  - constructor; constructor.
  - assert (Hy : In y S) by (apply Hl; now left).
    assert (Hl' : incl l S) by (intros z Hz; apply Hl; now right).
    inversion Hsorted as [|? ? Hrest Hall]; subst.
    rewrite (sortsAfter_lower x y Hx Hy).
    destruct (lower x y) eqn:Hxy.
    + constructor; [now apply IH|].
      apply (Permutation_Forall
               (Permutation_sym (insertSorted_perm x l))).
      constructor; [now apply lower_asym|assumption].
    + constructor; [assumption|].
      constructor; [assumption|].
      rewrite Forall_forall in Hall |- *. intros z Hz.
      apply (@not_lower_trans x y z); auto.
Qed.

Lemma sort_descending : forall l, incl l S -> descending (sort l).
Proof.
  induction l as [|x l IH]; intros Hl; simpl.
  - constructor.
  - apply insertSorted_descending.
    + apply Hl. now left.
    + intros z Hz. apply Hl. right.
      now apply (Permutation_in _ (sort_perm l)).
    + apply IH. intros z Hz. apply Hl. now right.
Qed.

(** Inserting a record does not reorder the records tied with any
    given one. *)
Lemma insertSorted_ties x a : forall l,
  In x S -> In a S -> incl l S ->
  filter (tied x) (insertSorted a l) = filter (tied x) (a :: l).
Proof.
  induction l as [|y l IH]; intros Hx Ha Hl; [reflexivity|].
  assert (Hy : In y S) by (apply Hl; now left).
  assert (Hl' : incl l S) by (intros z Hz; apply Hl; now right).
  cbn [insertSorted]. rewrite (sortsAfter_lower a y Ha Hy).
  destruct (lower a y) eqn:Hay; [|reflexivity].
  cbn [filter]. rewrite (IH Hx Ha Hl'). cbn [filter].
  destruct (tied x a) eqn:Hxa, (tied x y) eqn:Hxy; try reflexivity.
  exfalso. unfold tied in Hxa, Hxy.
  apply andb_true_iff in Hxa. destruct Hxa as [_ Hax].
  apply andb_true_iff in Hxy. destruct Hxy as [Hxy _].
  apply negb_true_iff in Hax, Hxy.
  pose proof (@not_lower_trans a x y Ha Hx Hy Hax Hxy). congruence.
Qed.

Lemma sort_ties x : forall l,
  In x S -> incl l S ->
  filter (tied x) (sort l) = filter (tied x) l.
Proof.
  induction l as [|a l IH]; intros Hx Hl; [reflexivity|].
  assert (Hl' : incl l S) by (intros z Hz; apply Hl; now right).
  simpl sort. rewrite insertSorted_ties.
  - cbn [filter]. now rewrite IH.
  - assumption.
  - apply Hl. now left.
  - intros z Hz. apply Hl'. now apply (Permutation_in _ (sort_perm l)).
Qed.

End ConsistentComparator.



(** C7, as the code has it.  For an absent or empty store the result is
    the empty sequence, and equal arguments give equal results.  For a
    store whose qualifying embeddings have the query's dimension, whose
    similarities the comparator orders consistently, and a limit that is
    not negative, the result is the first [limit] records of a ranking
    that permutes the qualifying records, descends in similarity and
    keeps tied records in store order; it has at most [limit] records,
    and all of them when there are no more than [limit]. *)
Theorem findSimilarContexts_ranking cs q limit :
  (findSimilarContexts None q limit = Ok []
   /\ findSimilarContexts (Some []) q limit = Ok []
   /\ forall contexts r1 r2,
       findSimilarContexts contexts q limit = r1 ->
       findSimilarContexts contexts q limit = r2 -> r1 = r2)
  /\
  (dimensionsMatch q cs ->
   consistentOn (scored cs q) = true ->
   0 <= limit ->
   exists ranked,
     findSimilarContexts (Some cs) q limit = Ok (firstn (Z.to_nat limit) ranked)
     /\ Permutation ranked (scored cs q)
     /\ descending ranked
     /\ (forall x, In x (scored cs q) ->
                   filter (tied x) ranked = filter (tied x) (scored cs q))
     /\ len (firstn (Z.to_nat limit) ranked) <= limit
     /\ (len (scored cs q) <= limit -> firstn (Z.to_nat limit) ranked = ranked)).
Proof.
  split.
  - split; [reflexivity|]. split; [reflexivity|]. intros; congruence.
  - intros Hdim Hcons Hlimit.
    apply consistentOn_Consistent in Hcons.
    exists (sort (scored cs q)).
    split; [|split; [|split; [|split; [|split]]]].
    + rewrite findSimilarContexts_rankAll. unfold rankAll.
      rewrite (scoreAll_match Hdim). simpl. f_equal.
      now apply slice_to_limit.
    + apply sort_perm.
    + apply (sort_descending Hcons). apply incl_refl.
    + intros x Hx. apply (sort_ties Hcons); [assumption|apply incl_refl].
    + unfold len.
      pose proof (firstn_le_length (Z.to_nat limit) (sort (scored cs q))).
      lia.
    + intros Hfew. apply firstn_all2.
      rewrite (Permutation_length (sort_perm (scored cs q))).
      unfold len in Hfew. lia.
Qed.

(** The five records queried for three: the two tied records lead, in
    store order. *)
Lemma findSimilarContexts_ranking_witness :
  exists ranked,
    findSimilarContexts (Some fiveRecords) query2 3
    = Ok (firstn (Z.to_nat 3) ranked)
    /\ Permutation ranked (scored fiveRecords query2)
    /\ descending ranked
    /\ (forall x, In x (scored fiveRecords query2) ->
                  filter (tied x) ranked
                  = filter (tied x) (scored fiveRecords query2))
    /\ len (firstn (Z.to_nat 3) ranked) <= 3
    /\ (len (scored fiveRecords query2) <= 3 ->
        firstn (Z.to_nat 3) ranked = ranked).
Proof.
  apply (proj2 (findSimilarContexts_ranking fiveRecords query2 3)).
  - unfold dimensionsMatch, fiveRecords.
    repeat (apply Forall_cons; [intros _; reflexivity|]). apply Forall_nil.
  - vm_compute. reflexivity.
  - lia.
Defined.

(** C7, as stated, fails in three ways: a negative limit returns more
    than [limit] records; a record of another dimension makes the call
    throw; and a NaN similarity leaves a lower record ahead of a higher
    one. *)
Lemma findSimilarContexts_ranking_fails :
  (exists l, findSimilarContexts (Some twoRecords) query2 (-1) = Ok l
             /\ ~ len l <= -1)
  /\ findSimilarContexts (Some mixedDimensions) query2 3 = Throw lengthMismatch
  /\ (exists l, findSimilarContexts (Some overflowing) bigQuery 3 = Ok l
                /\ map similarity l = [Some 0%float; Some nan; Some 1%float]
                /\ ~ descending l).
Proof.
  split; [|split].
  - eexists. split; [vm_compute; reflexivity|]. vm_compute. intros H. now apply H.
  - vm_compute. reflexivity.
  - eexists. split; [vm_compute; reflexivity|]. split; [reflexivity|].
    unfold descending. intros H.
    inversion H as [|? ? _ Hall]; subst.
    inversion Hall as [|? ? _ Hall']; subst.
    inversion Hall' as [|? ? Hlow _]; subst.
    vm_compute in Hlow. discriminate Hlow.
Qed.

End DbFacts.

(* ================================================================== *)
(** ** The ingestion handlers                                          *)
(* ================================================================== *)

Module IngestionFacts.
Import JS TextProcessing Db Ingestion Batch Inputs TextProcessingFacts.

(** *** Empty and failed extractions *)

(** The upload handler stops before chunking and embedding when the
    extracted text is blank or starts with one of its two sentinels. *)
Lemma processFile_short_circuit fuel env order file content w :
  noContent content = true \/ isSentinel content = true ->
  exists report,
    processFile fuel env order file content w = Some (report, w)
    /\ totalChunks report = 0%nat
    /\ error report <> None
    /\ chunks report = None.
Proof.
  intros H. unfold processFile.
  destruct (noContent content).
  - destruct (isPdf file); eexists; (split; [reflexivity|]);
      simpl; repeat split; discriminate.
  - destruct H as [H|H]; [discriminate|]. rewrite H.
    eexists. split; [reflexivity|]. simpl. repeat split; discriminate.
Qed.

(** C3.  The scrape handler has no such stop.  For an empty scraped
    text, whatever the provider, the page and the store: it forms the
    one chunk [""], submits it to the embedding provider, answers with
    [success] and [totalChunks = 1], and stores a record with empty
    content when the provider returns an embedding. *)
Theorem scrapeIngest_empty_content_is_embedded fuel env url title w :
  exists report w',
    scrapeIngest fuel env [0%nat] url title [] w = Some (report, w')
    /\ success report = true
    /\ scrape_totalChunks report = 1%nat
    /\ embedCalls w' = embedCalls w ++ [[]]
    /\ context w'
       = match embedQuery env 0 [] with
         | Ok e => pushAll (context w) [urlItem env url title 1 0 [] e]
         | Throw _ => pushAll (context w) []
         end.
Proof.
  eexists. eexists. split; [reflexivity|].
  simpl. repeat split.
  unfold scrapeResume. destruct (embedQuery env 0 []); reflexivity.
Qed.

(** *** A text on which the chunker does not return *)

(** Both handlers hand [oneSpaceText] to the chunker, and so neither
    answers. *)
Lemma handlers_never_return_on_oneSpaceText fuel env order file url title w :
  processFile fuel env order file oneSpaceText w = None
  /\ scrapeIngest fuel env order url title oneSpaceText w = None.
Proof.
  assert (Hchunks : textChunksOf fuel oneSpaceText = None).
  { unfold textChunksOf.
    replace (MAX_TOKENS <? estimateTokenCount (Some oneSpaceText)) with true
      by (vm_compute; reflexivity).
    apply oneSpaceText_never_returns. }
  split.
  - unfold processFile.
    replace (noContent oneSpaceText) with false by (vm_compute; reflexivity).
    replace (isSentinel oneSpaceText) with false by (vm_compute; reflexivity).
    now rewrite Hchunks.
  - unfold scrapeIngest. now rewrite Hchunks.
Qed.

(** *** The callbacks of a batch *)

Lemma length_indexed (textChunks : list str) :
  length (indexed textChunks) = length textChunks.
Proof. unfold indexed. rewrite length_combine, length_seq. lia. Qed.

Lemma flat_map_ext_in {A B : Type} (f g : A -> list B) (l : list A) :
  (forall a, In a l -> f a = g a) -> flat_map f l = flat_map g l.
Proof.
  induction l as [|a l IH]; intros H; [reflexivity|].
  simpl. rewrite (H a) by now left.
  rewrite IH; [reflexivity|]. intros b Hb. apply H. now right.
Qed.

Lemma indexed_from : forall (textChunks : list str) (k : nat),
  flat_map (fun i => match nth_error textChunks (i - k) with
                     | Some chunk => [(i, chunk)]
                     | None => []
                     end)
           (seq k (length textChunks))
  = combine (seq k (length textChunks)) textChunks.
Proof.
  induction textChunks as [|c tc IH]; intros k; [reflexivity|].
  cbn [length seq flat_map combine]. rewrite Nat.sub_diag. simpl.
  f_equal. rewrite <- (IH (S k)). apply flat_map_ext_in.
  intros i Hi. apply in_seq in Hi.
  replace (i - k)%nat with (S (i - S k)) by lia. reflexivity.
Qed.

(** Whatever the order in which the provider answers, the callbacks
    that resume are those of the batch. *)
Lemma resumed_perm (textChunks : list str) (order : list nat) :
  Permutation order (seq 0 (length textChunks)) ->
  Permutation (resumed textChunks order) (indexed textChunks).
Proof.
  intros H. unfold resumed, indexed.
  rewrite <- (indexed_from textChunks 0).
  rewrite (Permutation_flat_map _ H).
  erewrite flat_map_ext; [reflexivity|].
  intros i. simpl. now rewrite Nat.sub_0_r.
Qed.

Lemma filter_perm {A : Type} (f : A -> bool) (l l' : list A) :
  Permutation l l' -> Permutation (filter f l) (filter f l').
Proof.
  induction 1 as [|x l l' _ IH|x y l|l l' l'' _ IH1 _ IH2]; simpl.
  - constructor.
  - destruct (f x); [now constructor|assumption].
  - destruct (f x), (f y); try reflexivity. apply perm_swap.
  - now transitivity (filter f l').
Qed.

Lemma Forall2_map_left {A B : Type} (R : B -> A -> Prop) (f : A -> B) (l : list A) :
  Forall (fun x => R (f x) x) l -> Forall2 R (map f l) l.
Proof. induction 1; simpl; constructor; assumption. Qed.

Lemma failures_fail env textChunks :
  Forall (fun ic => exists e, embedQuery env (fst ic) (snd ic) = Throw e)
         (failures env textChunks).
Proof.
  unfold failures. apply Forall_forall. intros ic Hic.
  apply filter_In in Hic. destruct Hic as [_ Hf]. unfold failsAt in Hf.
  destruct (embedQuery env (fst ic) (snd ic)) as [v|e]; [discriminate|eauto].
Qed.

Lemma successes_count env textChunks :
  length (filter (fun ic => negb (failsAt env ic)) (indexed textChunks))
  = (length textChunks - length (failures env textChunks))%nat.
Proof.
  pose proof (filter_length (failsAt env) (indexed textChunks)) as H.
  rewrite length_indexed in H. unfold failures. lia.
Qed.

Lemma pushAll_pushAll ctx a b : pushAll (pushAll ctx a) b = pushAll ctx (a ++ b).
Proof. unfold pushAll. now rewrite app_assoc. Qed.

(** *** The upload handler *)

Lemma hasError_uploadResult env file total textChunks ic :
  messagesNonEmpty env textChunks ->
  In ic (indexed textChunks) ->
  hasError (uploadResult env file total ic) = failsAt env ic.
Proof.
  intros Hmsg Hin. specialize (Hmsg ic). destruct ic as [i c].
  unfold uploadResult, failsAt, hasError in *. simpl in *.
  destruct (embedQuery env i c) as [v|e]; [reflexivity|]. simpl.
  specialize (Hmsg e Hin eq_refl).
  destruct (errorMessage e); [contradiction|reflexivity].
Qed.

Lemma uploadResult_recordsFailure env file total ic e :
  embedQuery env (fst ic) (snd ic) = Throw e ->
  recordsFailure env (uploadResult env file total ic) ic.
Proof.
  destruct ic as [i c]. simpl. intros H. unfold recordsFailure, uploadResult.
  simpl. rewrite H. split; [reflexivity|]. exists e. now split.
Qed.

Lemma fold_uploadResume env file total : forall l ctx,
  appendedTo ctx (fold_left (uploadResume env file total) l ctx)
             (flat_map (fileItems env file total) l).
Proof.
  induction l as [|[i c] l IH]; intros ctx; [reflexivity|].
  cbn [fold_left flat_map]. unfold uploadResume at 2, fileItems at 1.
  simpl fst. simpl snd.
  destruct (embedQuery env i c) as [v|e].
  - specialize (IH (pushAll ctx [fileItem env file total i c v])).
    unfold appendedTo in *.
    destruct (flat_map (fileItems env file total) l) as [|x xs].
    + simpl. exact IH.
    + simpl app. rewrite IH. apply pushAll_pushAll.
  - apply IH.
Qed.

Lemma fileItems_count env file total : forall l,
  length (flat_map (fileItems env file total) l)
  = length (filter (fun ic => negb (failsAt env ic)) l).
Proof.
  induction l as [|ic l IH]; [reflexivity|].
  cbn [flat_map filter]. rewrite length_app, IH.
  unfold fileItems, failsAt.
  destruct (embedQuery env (fst ic) (snd ic)); reflexivity.
Qed.

Lemma uploadChunks_isolated env order file textChunks w :
  Permutation order (seq 0 (length textChunks)) ->
  messagesNonEmpty env textChunks ->
  let N := length textChunks in
  let K := length (failures env textChunks) in
  let report := fst (uploadChunks env order file textChunks w) in
  let w' := snd (uploadChunks env order file textChunks w) in
  totalChunks report = N
  /\ successfulChunks report = Some (N - K)%nat
  /\ (exists failed,
         failedChunks report = (if (K =? 0)%nat then None else Some failed)
         /\ Forall2 (recordsFailure env) failed (failures env textChunks))
  /\ embedCalls w' = embedCalls w ++ textChunks
  /\ exists items,
        appendedTo (context w) (context w') items
        /\ length items = (N - K)%nat
        /\ Permutation items (flat_map (fileItems env file N) (indexed textChunks)).
Proof.
  intros Hperm Hmsg N K report w'.
  assert (Hfailed :
            filter hasError (map (uploadResult env file N) (indexed textChunks))
            = map (uploadResult env file N) (failures env textChunks)).
  { rewrite filter_map_swap. unfold failures. f_equal.
    apply filter_ext_in. intros ic Hic.
    now apply (@hasError_uploadResult env file N textChunks ic). }
  split; [reflexivity|]. split; [|split; [|split; [reflexivity|]]].
  - unfold report, uploadChunks. simpl. f_equal.
    rewrite filter_map_swap, length_map.
    rewrite (@filter_ext_in _ _ (fun ic => negb (failsAt env ic))).
    + apply successes_count.
    + intros ic Hic. f_equal.
      now apply (@hasError_uploadResult env file N textChunks ic).
  - exists (map (uploadResult env file N) (failures env textChunks)). split.
    + unfold report, uploadChunks. simpl. fold N. rewrite Hfailed, length_map.
      fold K. destruct K; reflexivity.
    + apply Forall2_map_left.
      eapply Forall_impl; [|apply failures_fail].
      intros ic [e He]. now apply uploadResult_recordsFailure with (e := e).
  - exists (flat_map (fileItems env file N) (resumed textChunks order)).
    split; [apply fold_uploadResume|]. split.
    + rewrite fileItems_count.
      rewrite (Permutation_length
                 (filter_perm _ (resumed_perm textChunks Hperm))).
      apply successes_count.
    + apply Permutation_flat_map. now apply resumed_perm.
Qed.

(** *** The scrape handler *)

Lemma hasError_scrapeResult env url title total textChunks ic :
  messagesNonEmpty env textChunks ->
  In ic (indexed textChunks) ->
  hasError (scrapeResult env url title total ic) = failsAt env ic.
Proof.
  intros Hmsg Hin. specialize (Hmsg ic). destruct ic as [i c].
  unfold scrapeResult, failsAt, hasError in *. simpl in *.
  destruct (embedQuery env i c) as [v|e]; [reflexivity|]. simpl.
  specialize (Hmsg e Hin eq_refl).
  destruct (errorMessage e); [contradiction|reflexivity].
Qed.

Lemma scrapeResume_count env url title total : forall l,
  length (flat_map (scrapeResume env url title total) l)
  = length (filter (fun ic => negb (failsAt env ic)) l).
Proof.
  induction l as [|[i c] l IH]; [reflexivity|].
  cbn [flat_map filter]. rewrite length_app, IH.
  unfold scrapeResume, failsAt. simpl.
  destruct (embedQuery env i c); reflexivity.
Qed.

Lemma scrapeChunks_isolated env order url title contentLen textChunks w :
  Permutation order (seq 0 (length textChunks)) ->
  messagesNonEmpty env textChunks ->
  let N := length textChunks in
  let K := length (failures env textChunks) in
  let report := fst (scrapeChunks env order url title contentLen textChunks w) in
  let w' := snd (scrapeChunks env order url title contentLen textChunks w) in
  scrape_totalChunks report = N
  /\ scrape_successfulChunks report = (N - K)%nat
  /\ scrape_failedChunks report = K
  /\ embedCalls w' = embedCalls w ++ textChunks
  /\ exists items,
        context w' = pushAll (context w) items
        /\ contextItems report = map summarize items
        /\ length items = (N - K)%nat
        /\ Permutation items
              (flat_map (scrapeResume env url title N) (indexed textChunks)).
Proof.
  intros Hperm Hmsg N K report w'.
  split; [reflexivity|]. split; [|split; [|split; [reflexivity|]]].
  - unfold report, scrapeChunks. simpl.
    rewrite filter_map_swap, length_map.
    rewrite (@filter_ext_in _ _ (fun ic => negb (failsAt env ic))).
    + apply successes_count.
    + intros ic Hic. f_equal.
      now apply (@hasError_scrapeResult env url title N textChunks ic).
  - unfold report, scrapeChunks. simpl. fold N.
    rewrite filter_map_swap, length_map.
    rewrite (@filter_ext_in _ _ (failsAt env)).
    + fold (failures env textChunks). fold K. destruct K; reflexivity.
    + intros ic Hic.
      now apply (@hasError_scrapeResult env url title N textChunks ic).
  - exists (flat_map (scrapeResume env url title N) (resumed textChunks order)).
    split; [reflexivity|]. split; [reflexivity|]. split.
    + rewrite scrapeResume_count.
      rewrite (Permutation_length
                 (filter_perm _ (resumed_perm textChunks Hperm))).
      apply successes_count.
    + apply Permutation_flat_map. now apply resumed_perm.
Qed.

(** C4, as the code has it.  Take a batch of [N] chunks of which [K]
    fail to embed, each failure with a non-empty message, and any order
    of completion.  Both handlers submit every chunk, report
    [totalChunks = N] and [successfulChunks = N - K], and append to
    ["context"] exactly the [N - K] records of the chunks that were
    embedded.  The upload report lists the [K] failed chunks, each with
    its index and message (no list when [K = 0]); the scrape report
    gives [K] as a number. *)
Theorem chunk_failures_isolated env order file url title contentLen textChunks w :
  Permutation order (seq 0 (length textChunks)) ->
  messagesNonEmpty env textChunks ->
  let N := length textChunks in
  let K := length (failures env textChunks) in
  (let report := fst (uploadChunks env order file textChunks w) in
   let w' := snd (uploadChunks env order file textChunks w) in
   totalChunks report = N
   /\ successfulChunks report = Some (N - K)%nat
   /\ (exists failed,
          failedChunks report = (if (K =? 0)%nat then None else Some failed)
          /\ Forall2 (recordsFailure env) failed (failures env textChunks))
   /\ embedCalls w' = embedCalls w ++ textChunks
   /\ exists items,
         appendedTo (context w) (context w') items
         /\ length items = (N - K)%nat
         /\ Permutation items
               (flat_map (fileItems env file N) (indexed textChunks)))
  /\
  (let report := fst (scrapeChunks env order url title contentLen textChunks w) in
   let w' := snd (scrapeChunks env order url title contentLen textChunks w) in
   scrape_totalChunks report = N
   /\ scrape_successfulChunks report = (N - K)%nat
   /\ scrape_failedChunks report = K
   /\ embedCalls w' = embedCalls w ++ textChunks
   /\ exists items,
         context w' = pushAll (context w) items
         /\ contextItems report = map summarize items
         /\ length items = (N - K)%nat
         /\ Permutation items
               (flat_map (scrapeResume env url title N) (indexed textChunks))).
Proof.
  intros Hperm Hmsg. split.
  - now apply uploadChunks_isolated.
  - now apply scrapeChunks_isolated.
Qed.

Lemma rateLimited_messages : messagesNonEmpty rateLimited threeChunks.
Proof.
  intros [i c] e _ H. simpl in H.
  destruct (i =? 1)%nat; [|discriminate].
  injection H as <-. discriminate.
Qed.

(** Three chunks, the provider fails on the second, the answers arrive
    in the order 2, 0, 1. *)
Lemma chunk_failures_isolated_witness :
  successfulChunks (fst (uploadChunks rateLimited [2; 0; 1]%nat notes
                                      threeChunks emptyWorld)) = Some 2%nat
  /\ scrape_failedChunks
       (fst (scrapeChunks rateLimited [2; 0; 1]%nat (lit "https://example.org")
                          (lit "Example") 3 threeChunks emptyWorld)) = 1%nat.
Proof.
  destruct (@chunk_failures_isolated rateLimited [2; 0; 1]%nat notes
              (lit "https://example.org") (lit "Example") 3
              threeChunks emptyWorld)
    as [[_ [Hup _]] [_ [_ [Hscrape _]]]].
  - apply (perm_trans (perm_swap 0%nat 2%nat [1%nat])).
    apply perm_skip. apply perm_swap.
  - exact rateLimited_messages.
  - split; [exact Hup|exact Hscrape].
Defined.

(** C4, as stated, fails in two ways.  The scrape report does not
    record the error of a failed chunk: two providers that fail on the
    same chunk with different errors give the same report.  And an error
    with an empty message is counted as a success by both handlers,
    although no record is stored for its chunk. *)
Lemma chunk_failures_isolated_fails :
  fst (scrapeChunks rateLimited [0; 1; 2]%nat (lit "https://example.org")
                    (lit "Example") 3 threeChunks emptyWorld)
  = fst (scrapeChunks unauthorized [0; 1; 2]%nat (lit "https://example.org")
                      (lit "Example") 3 threeChunks emptyWorld)
  /\ (length (failures silent threeChunks) = 1%nat
      /\ successfulChunks (fst (uploadChunks silent [0; 1; 2]%nat notes
                                             threeChunks emptyWorld))
         = Some 3%nat
      /\ failedChunks (fst (uploadChunks silent [0; 1; 2]%nat notes
                                         threeChunks emptyWorld)) = None
      /\ option_map (@length _)
           (context (snd (uploadChunks silent [0; 1; 2]%nat notes
                                       threeChunks emptyWorld)))
         = Some 2%nat).
Proof. repeat split; vm_compute; reflexivity. Qed.

End IngestionFacts.

(* ================================================================== *)
(** ** More on the chunker                                             *)
(* ================================================================== *)

Module ChunkerFacts.
Import JS TextProcessing Chunking JSFacts TextProcessingFacts Inputs.

(** *** What every cut looks like *)

Lemma chunkEnd_lower text C s :
  0 <= s -> s + Z.min 2 C <= chunkEnd text C s.
Proof.
  intros Hs. unfold chunkEnd.
  destruct (s + C <? len text); [|lia].
  repeat match goal with
         | |- context [if ?b then _ else _] => destruct b eqn:?
         end;
    rewrite ?andb_true_iff, ?Z.ltb_lt in *; lia.
Qed.

Lemma nextStart_le ov e : 0 <= ov -> nextStart ov e <= e.
Proof. intros H. unfold nextStart. destruct (_ || _); lia. Qed.

Lemma slice_len_ge_1 {A : Type} (s : list A) (a b : Z) :
  0 <= a < len s -> a < b -> 1 <= len (slice s a b).
Proof.
  intros Ha Hab. rewrite slice_firstn_skipn by lia.
  unfold len in *. rewrite length_firstn, length_skipn. lia.
Qed.

Lemma iterate_nonempty text C ov :
  0 < C ->
  forall n st,
    0 <= startIndex st ->
    Forall (fun c => 1 <= len c) (chunks st) ->
    0 <= startIndex (iterate n text C ov st)
    /\ Forall (fun c => 1 <= len c) (chunks (iterate n text C ov st)).
Proof.
  intros HC. induction n as [|n IH]; intros st Hs Hc; [now split|].
  simpl. unfold loopGuard. destruct (Z.ltb_spec (startIndex st) (len text)) as [Hg|Hg];
    [|now split].
  pose proof (chunkEnd_bounds text Hs HC) as Hb.
  apply IH; unfold loopBody; simpl.
  - pose proof (@nextStart_pos ov (chunkEnd text C (startIndex st))). lia.
  - apply Forall_app. split; [assumption|].
    constructor; [|constructor]. apply slice_len_ge_1; lia.
Qed.

(** X1.  For a positive chunk size, no chunk that the loop of
    [splitTextIntoChunks] pushes is empty: not after any number of
    iterations, and so not in any sequence it returns for a text longer
    than the chunk size. *)
Theorem splitTextIntoChunks_no_empty_chunk text chunkSize overlap :
  0 < chunkSize ->
  (forall n, Forall (fun c => 1 <= len c)
                    (chunks (iterate n text chunkSize overlap initial)))
  /\ (chunkSize < len text ->
      forall fuel cs,
        splitTextIntoChunks fuel text chunkSize overlap = Some cs ->
        cs <> [] /\ Forall (fun c => 1 <= len c) cs).
Proof.
  intros HC.
  assert (Hall : forall n, Forall (fun c => 1 <= len c)
                             (chunks (iterate n text chunkSize overlap initial))).
  { intros n.
    destruct (@iterate_nonempty text chunkSize overlap HC n initial) as [_ H];
      [simpl; lia|constructor|exact H]. }
  split; [exact Hall|].
  intros Hlong fuel cs H. unfold splitTextIntoChunks in H.
  destruct text as [|c text']; [unfold len in Hlong; simpl in Hlong; lia|].
  apply Z.leb_gt in Hlong. rewrite Hlong in H. simpl orb in H. cbv iota in H.
  pose proof (runLoop_iterate _ _ _ _ _ H) as E. split; [|subst cs; apply Hall].
  destruct fuel as [|fuel]; simpl in H; unfold loopGuard in H; simpl startIndex in H.
  - destruct (0 <? len (c :: text')) eqn:Hg; [discriminate|].
    apply Z.ltb_ge in Hg. unfold len in Hg. simpl in Hg. lia.
  - destruct (0 <? len (c :: text')) eqn:Hg.
    + apply runLoop_iterate in H. subst cs.
      clear E. intros E.
      assert (Hmono : forall n st, chunks st <> [] ->
                        chunks (iterate n (c :: text') chunkSize overlap st) <> []).
      { induction n as [|n IHn]; intros st Hst; [exact Hst|].
        simpl. destruct (loopGuard (c :: text') st); [|exact Hst].
        apply IHn. unfold loopBody. simpl. destruct (chunks st); discriminate. }
      revert E. apply Hmono. unfold loopBody. simpl. discriminate.
    + apply Z.ltb_ge in Hg. unfold len in Hg. simpl in Hg. lia.
Qed.

Lemma splitTextIntoChunks_no_empty_chunk_witness :
  Forall (fun c => 1 <= len c) (chunks (iterate 3 paragraphText 5 2 initial)).
Proof.
  apply (proj1 (@splitTextIntoChunks_no_empty_chunk paragraphText 5 2 ltac:(lia))).
Defined.

(** *** The spans of the chunks *)

Lemma iterate_spans text C ov : forall n st,
  chunks (iterate n text C ov st)
  = chunks st ++ map (sliceOf text) (spansFrom n text C ov (startIndex st)).
Proof.
  induction n as [|n IH]; intros st; simpl; [now rewrite app_nil_r|].
  unfold loopGuard. destruct (startIndex st <? len text); [|now rewrite app_nil_r].
  rewrite IH. unfold loopBody. simpl. now rewrite <- app_assoc.
Qed.

Lemma spansFrom_nil_stopped text C ov n st :
  spansFrom n text C ov (startIndex st) = [] ->
  loopGuard text (iterate n text C ov st) = false ->
  len text <= startIndex st.
Proof.
  destruct n as [|n]; simpl; unfold loopGuard.
  - intros _ H. now apply Z.ltb_ge in H.
  - destruct (Z.ltb_spec (startIndex st) (len text)); [discriminate|lia].
Qed.

Lemma spansFrom_head text C ov n s a b rest :
  spansFrom n text C ov s = (a, b) :: rest -> a = s.
Proof.
  destruct n as [|n]; simpl; [discriminate|].
  destruct (s <? len text); [|discriminate]. congruence.
Qed.

Lemma spans_chained_covering text C ov :
  0 < C -> 0 <= ov ->
  forall n st,
    0 <= startIndex st ->
    loopGuard text (iterate n text C ov st) = false ->
    chained text (spansFrom n text C ov (startIndex st))
    /\ forall i, startIndex st <= i < len text ->
                 Exists (covers i) (spansFrom n text C ov (startIndex st)).
Proof.
  intros HC Hov. induction n as [|n IH]; intros st Hs Hstop.
  - simpl in *. split; [exact I|]. intros i Hi.
    unfold loopGuard in Hstop. apply Z.ltb_ge in Hstop. lia.
  - simpl in Hstop |- *. unfold loopGuard in Hstop |- *.
    destruct (Z.ltb_spec (startIndex st) (len text)) as [Hg|Hg].
    + pose proof (chunkEnd_bounds text Hs HC) as Hb.
      set (e := chunkEnd text C (startIndex st)) in *.
      pose proof (@nextStart_pos ov e ltac:(lia)) as Hpos.
      pose proof (@nextStart_le ov e Hov) as Hle.
      destruct (IH (loopBody text C ov st)) as [Hch Hcov];
        [unfold loopBody; simpl; fold e; lia|exact Hstop|].
      unfold loopBody in Hch, Hcov. simpl startIndex in Hch, Hcov. fold e in Hch, Hcov.
      split.
      * simpl. split; [lia|]. split; [lia|]. split; [|exact Hch].
        destruct (spansFrom n text C ov (nextStart ov e)) as [|[a' b'] rest] eqn:E.
        -- pose proof (@spansFrom_nil_stopped text C ov n (loopBody text C ov st)) as H0.
           unfold loopBody in H0 at 1. simpl startIndex in H0. fold e in H0.
           specialize (H0 E Hstop). unfold loopBody in H0. simpl in H0. fold e in H0. lia.
        -- apply spansFrom_head in E. lia.
      * intros i Hi. destruct (Z.lt_ge_cases i e).
        -- apply Exists_cons_hd. unfold covers. simpl. lia.
        -- apply Exists_cons_tl. apply Hcov. lia.
    + split; [exact I|]. intros i Hi. lia.
Qed.

(** X2.  When [splitTextIntoChunks] returns for a text longer than a
    positive chunk size, with an overlap that is not negative, its chunks
    are the slices of a chain of spans: the first begins at 0, each is
    non-empty and begins inside the text at or before the end of the one
    before, and the last reaches the end of the text.  So every character
    of the text lies in some chunk: nothing is skipped. *)
Theorem splitTextIntoChunks_covers_text text chunkSize overlap fuel cs :
  0 < chunkSize -> 0 <= overlap -> chunkSize < len text ->
  splitTextIntoChunks fuel text chunkSize overlap = Some cs ->
  cs = map (sliceOf text) (spansFrom fuel text chunkSize overlap 0)
  /\ (exists e rest, spansFrom fuel text chunkSize overlap 0 = (0, e) :: rest)
  /\ chained text (spansFrom fuel text chunkSize overlap 0)
  /\ forall i, 0 <= i < len text ->
               Exists (covers i) (spansFrom fuel text chunkSize overlap 0).
Proof.
  intros HC Hov Hlong H. unfold splitTextIntoChunks in H.
  destruct text as [|c text']; [unfold len in Hlong; simpl in Hlong; lia|].
  apply Z.leb_gt in Hlong. rewrite Hlong in H. simpl orb in H. cbv iota in H.
  set (text := c :: text') in *.
  pose proof (runLoop_stops _ _ _ _ _ H) as Hstop.
  apply runLoop_iterate in H.
  rewrite iterate_spans in H. simpl in H.
  destruct (@spans_chained_covering text chunkSize overlap HC Hov fuel initial)
    as [Hch Hcov]; [simpl; lia|exact Hstop|].
  simpl startIndex in Hch, Hcov.
  split; [exact H|]. split; [|split; assumption].
  destruct (spansFrom fuel text chunkSize overlap 0) as [|[a b] rest] eqn:E.
  - exfalso. specialize (Hcov 0).
    assert (H0 : 0 <= 0 < len text) by (unfold len, text; simpl; lia).
    apply Hcov in H0. inversion H0.
  - apply spansFrom_head in E as Ha. subst a. eauto.
Qed.

Lemma splitTextIntoChunks_covers_text_witness :
  Exists (covers 6) (spansFrom 3 paragraphText 5 2 0).
Proof.
  refine (proj2 (proj2 (proj2
            (@splitTextIntoChunks_covers_text paragraphText 5 2 3
               [lit "aaaaa" ++ LF2; LF2 ++ lit "aaa"; lit "aaa"] _ _ _ _))) 6 _).
  - lia.
  - lia.
  - vm_compute. reflexivity.
  - vm_compute. reflexivity.
  - vm_compute. split; [discriminate|reflexivity].
Defined.

(** *** Cuts that are longer than the overlap *)

Lemma nextStart_minus ov e : 0 <= ov < e -> nextStart ov e = e - ov.
Proof.
  intros H. unfold nextStart.
  destruct (Z.leb_spec (e - ov) 0); [lia|].
  destruct (Z.eqb_spec e (e - ov)); simpl; lia.
Qed.

Lemma iterate_roundtrip text C ov :
  0 <= ov ->
  (forall s, 0 <= s < len text -> s + ov < chunkEnd text C s) ->
  forall n st,
    0 <= startIndex st ->
    chunks st <> [] ->
    removeOverlaps ov (chunks st) = firstn (Z.to_nat (startIndex st + ov)) text ->
    removeOverlaps ov (chunks (iterate n text C ov st))
    = firstn (Z.to_nat (startIndex (iterate n text C ov st) + ov)) text.
Proof.
  intros Hov Hcut. induction n as [|n IH]; intros st Hs Hne Hinv; [exact Hinv|].
  simpl. unfold loopGuard.
  destruct (Z.ltb_spec (startIndex st) (len text)) as [Hg|Hg]; [|exact Hinv].
  pose proof (Hcut (startIndex st) (conj Hs Hg)) as He.
  assert (Hbody : loopBody text C ov st
                  = mkLoop (chunkEnd text C (startIndex st) - ov)
                           (chunks st ++ [slice text (startIndex st)
                                                (chunkEnd text C (startIndex st))])).
  { unfold loopBody. rewrite nextStart_minus by lia. reflexivity. }
  rewrite Hbody. set (e := chunkEnd text C (startIndex st)) in *.
  apply IH; cbn [startIndex chunks].
  - lia.
  - destruct (chunks st); discriminate.
  - rewrite removeOverlaps_snoc, Hinv by assumption.
    rewrite slice_firstn_skipn by lia.
    replace (Z.to_nat ov)
      with (Z.to_nat (startIndex st + ov) - Z.to_nat (startIndex st))%nat by lia.
    replace (Z.to_nat (e - startIndex st))
      with (Z.to_nat e - Z.to_nat (startIndex st))%nat by lia.
    rewrite firstn_extend by lia. f_equal. lia.
Qed.

(** If every cut lies more than the overlap past its start, the chunker
    returns within [len text] iterations and the text is recovered by
    removing the overlaps. *)
Lemma roundtrip_when_cuts_exceed_overlap text C ov :
  0 <= ov ->
  (forall s, 0 <= s < len text -> s + ov < chunkEnd text C s) ->
  exists cs,
    splitTextIntoChunks (Z.to_nat (len text)) text C ov = Some cs
    /\ removeOverlaps ov cs = text.
Proof.
  intros Hov Hcut. unfold splitTextIntoChunks.
  destruct ((match text with [] => true | _ => false end) || (len text <=? C)) eqn:Hearly.
  { exists [text]. split; [reflexivity|]. simpl. apply app_nil_r. }
  apply orb_false_iff in Hearly. destruct Hearly as [Hne _].
  destruct text as [|c0 text']; [discriminate|]. clear Hne.
  set (text := c0 :: text') in *.
  assert (Hlen : 0 < len text) by (unfold len, text; simpl; lia).
  destruct (@runLoop_terminates_when_advancing text C ov) with
    (fuel := Z.to_nat (len text)) (st := initial) as [cs Hcs].
  - intros s Hs. specialize (Hcut s Hs). rewrite nextStart_minus; lia.
  - simpl. lia.
  - simpl startIndex. lia.
  - exists cs. split; [exact Hcs|].
    pose proof (runLoop_stops _ _ _ _ _ Hcs) as Hstop.
    apply runLoop_iterate in Hcs. subst cs.
    destruct (Z.to_nat (len text)) as [|fuel] eqn:Hfuel; [lia|].
    assert (Hg : loopGuard text initial = true).
    { unfold loopGuard. simpl. apply Z.ltb_lt. lia. }
    rewrite iterate_running in * by exact Hg.
    pose proof (Hcut 0 ltac:(lia)) as He0.
    assert (Hbody : loopBody text C ov initial
                    = mkLoop (chunkEnd text C 0 - ov) [slice text 0 (chunkEnd text C 0)]).
    { unfold loopBody, initial. simpl startIndex. simpl chunks.
      rewrite nextStart_minus by lia. reflexivity. }
    rewrite Hbody in *.
    rewrite (@iterate_roundtrip text C ov Hov Hcut fuel).
    + apply firstn_all2. unfold loopGuard in Hstop.
      apply Z.ltb_ge in Hstop. unfold len in Hstop. lia.
    + simpl. lia.
    + discriminate.
    + simpl. rewrite app_nil_r, slice_firstn_skipn by lia.
      simpl. f_equal. lia.
Qed.

Lemma removeOverlaps_zero cs : removeOverlaps 0 cs = concat cs.
Proof.
  destruct cs as [|c rest]; [reflexivity|]. unfold removeOverlaps.
  change (Z.to_nat 0) with 0%nat. simpl. f_equal.
  induction rest as [|r rest IH]; simpl; [reflexivity|now rewrite IH].
Qed.

(** X3.  With an overlap of 0 (for a chunk size of at least 1) or of 1
    (for a chunk size of at least 2) the chunker returns on every text,
    within [len text] iterations, and removing the overlap from every
    chunk but the first gives back the text; with overlap 0 the chunks
    concatenate to the text. *)
Theorem splitTextIntoChunks_small_overlap_roundtrip text chunkSize overlap :
  0 <= overlap < Z.min 2 chunkSize ->
  exists cs,
    splitTextIntoChunks (Z.to_nat (len text)) text chunkSize overlap = Some cs
    /\ removeOverlaps overlap cs = text
    /\ (overlap = 0 -> concat cs = text).
Proof.
  intros Hov.
  destruct (@roundtrip_when_cuts_exceed_overlap text chunkSize overlap) as [cs [H1 H2]].
  - lia.
  - intros s Hs. pose proof (@chunkEnd_lower text chunkSize s). lia.
  - exists cs. split; [exact H1|]. split; [exact H2|].
    intros ->. now rewrite <- removeOverlaps_zero.
Qed.

Lemma splitTextIntoChunks_small_overlap_roundtrip_witness :
  exists cs,
    splitTextIntoChunks (Z.to_nat (len paragraphText)) paragraphText 5 1 = Some cs
    /\ removeOverlaps 1 cs = paragraphText
    /\ (1 = 0 -> concat cs = paragraphText).
Proof.
  apply splitTextIntoChunks_small_overlap_roundtrip. lia.
Defined.

(** X4.  On a text with no space and no line feed, and for any overlap
    below the chunk size, the chunker returns within [len text]
    iterations and removing the overlap from every chunk but the first
    gives back the text. *)
Theorem splitTextIntoChunks_hard_cut_roundtrip text chunkSize overlap :
  breakFree text -> 0 <= overlap < chunkSize ->
  exists cs,
    splitTextIntoChunks (Z.to_nat (len text)) text chunkSize overlap = Some cs
    /\ removeOverlaps overlap cs = text.
Proof.
  intros Hfree Hov. apply roundtrip_when_cuts_exceed_overlap; [lia|].
  intros s Hs. rewrite (chunkEnd_breakFree chunkSize Hfree); lia.
Qed.

Lemma splitTextIntoChunks_hard_cut_roundtrip_witness :
  exists cs,
    splitTextIntoChunks (Z.to_nat (len (letters 30))) (letters 30) 10 4 = Some cs
    /\ removeOverlaps 4 cs = letters 30.
Proof.
  apply splitTextIntoChunks_hard_cut_roundtrip; [|lia].
  split; intros H; vm_compute in H; intuition discriminate.
Defined.

End ChunkerFacts.

(* ================================================================== *)
(** ** Chunk titles and the chunking threshold                         *)
(* ================================================================== *)

Module TitleFacts.
Import JS TextProcessing Titles Ingestion JSFacts TextProcessingFacts Inputs.

(** *** Decimal numerals *)

Lemma digit_value m : (m < 10)%nat -> (nat_of_ascii (digit m) - 48)%nat = m.
Proof.
  intros H. unfold digit. rewrite nat_ascii_embedding by lia. lia.
Qed.

Lemma digit_isDigit m : (m < 10)%nat -> isDigit (digit m) = true.
Proof.
  intros H. unfold isDigit, digit. rewrite nat_ascii_embedding by lia.
  apply andb_true_iff. split; apply Nat.leb_le; lia.
Qed.

Lemma decimal_aux_value : forall fuel n acc,
  (n < fuel)%nat ->
  exists k, forall v,
    fold_left (fun a c => (10 * a + (nat_of_ascii c - 48))%nat)
              (decimal_aux fuel n acc) v
    = fold_left (fun a c => (10 * a + (nat_of_ascii c - 48))%nat)
                acc (v * 10 ^ k + n)%nat.
Proof.
  induction fuel as [|fuel IH]; intros n acc Hn; [lia|].
  pose proof (Nat.mod_upper_bound n 10 ltac:(lia)) as Hmod.
  pose proof (Nat.div_mod_eq n 10) as Hdm.
  cbn [decimal_aux]. destruct (n / 10)%nat as [|q] eqn:Hq.
  - exists 1%nat. intros v. cbn [fold_left]. rewrite digit_value by assumption.
    f_equal. rewrite Nat.pow_1_r. lia.
  - destruct (IH (S q) (digit (n mod 10) :: acc)) as [k Hk]; [lia|].
    exists (S k). intros v. rewrite Hk. cbn [fold_left].
    rewrite digit_value by assumption. f_equal.
    rewrite Nat.pow_succ_r'. lia.
Qed.

Lemma readDecimal_decimal n : readDecimal (decimal n) = n.
Proof.
  unfold readDecimal, decimal.
  destruct (@decimal_aux_value (S n) n [] ltac:(lia)) as [k Hk].
  rewrite Hk. simpl. lia.
Qed.

Lemma decimal_aux_digits : forall fuel n acc,
  Forall (fun c => isDigit c = true) acc ->
  Forall (fun c => isDigit c = true) (decimal_aux fuel n acc).
Proof.
  induction fuel as [|fuel IH]; intros n acc Hacc; [exact Hacc|].
  pose proof (Nat.mod_upper_bound n 10 ltac:(lia)) as Hmod.
  cbn [decimal_aux].
  assert (H' : Forall (fun c => isDigit c = true) (digit (n mod 10) :: acc))
    by (constructor; [now apply digit_isDigit|assumption]).
  destruct (n / 10)%nat; [exact H'|now apply IH].
Qed.

Lemma decimal_digits n : Forall (fun c => isDigit c = true) (decimal n).
Proof. apply decimal_aux_digits. constructor. Qed.

(** Two numerals, each followed by a character that is not a digit. *)
Lemma numeral_prefix_unique : forall (d1 d2 : str) (c : ascii) (r1 r2 : str),
  Forall (fun c => isDigit c = true) d1 ->
  Forall (fun c => isDigit c = true) d2 ->
  isDigit c = false ->
  d1 ++ c :: r1 = d2 ++ c :: r2 -> d1 = d2.
Proof.
  induction d1 as [|a d1 IH]; intros [|b d2] c r1 r2 H1 H2 Hc E; simpl in E.
  - reflexivity.
  - injection E as -> _. inversion H2; congruence.
  - injection E as -> _. inversion H1; congruence.
  - injection E as -> E. f_equal.
    inversion H1; inversion H2; subst. now apply (IH d2 c r1 r2).
Qed.

(** *** The preview *)

Lemma firstLine_no_LF s : ~ In "010"%char (firstLine s).
Proof.
  induction s as [|c s IH]; simpl; [tauto|].
  destruct (Ascii.eqb_spec c "010"%char); simpl; [tauto|].
  intros [H|H]; [congruence|contradiction].
Qed.

Lemma trimStart_incl s c : In c (trimStart s) -> In c s.
Proof.
  induction s as [|a s IH]; simpl; [tauto|].
  destruct (isWhiteSpace a); [right; now apply IH|tauto].
Qed.

Lemma trimStart_length s : (length (trimStart s) <= length s)%nat.
Proof.
  induction s as [|a s IH]; simpl; [lia|].
  destruct (isWhiteSpace a); simpl; lia.
Qed.

Lemma rev'_rev {A : Type} (l : list A) : rev' l = rev l.
Proof. unfold rev'. symmetry. apply rev_alt. Qed.

Lemma trim_incl s c : In c (trim s) -> In c s.
Proof.
  unfold trim. rewrite !rev'_rev. intros H.
  apply in_rev in H. apply trimStart_incl in H. apply in_rev in H.
  now apply trimStart_incl.
Qed.

Lemma trim_length s : (length (trim s) <= length s)%nat.
Proof.
  unfold trim. rewrite !rev'_rev, length_rev.
  pose proof (trimStart_length (rev (trimStart s))) as H.
  rewrite length_rev in H. pose proof (trimStart_length s). lia.
Qed.

(** X6.  A chunk title is the file name, [" (chunk "], the index plus
    one in decimal, [") - "] and a preview; the preview is a single line
    of at most 53 characters, and it is the whole trimmed first line of
    the chunk when that has at most 50 characters.  Titles made for the
    same file name and two chunk indices are equal only if the indices
    are, whatever the chunks. *)
Theorem createChunkTitle_shape chunk index filename :
  (exists preview,
      createChunkTitle chunk index filename
      = filename ++ lit " (chunk " ++ decimal (index + 1) ++ lit ") - " ++ preview
      /\ (length preview <= 53)%nat
      /\ ~ In "010"%char preview
      /\ ((length (trim (firstLine chunk)) <= 50)%nat ->
          preview = trim (firstLine chunk)))
  /\ forall chunk' index',
      createChunkTitle chunk index filename
      = createChunkTitle chunk' index' filename ->
      index = index'.
Proof.
  split.
  - unfold createChunkTitle. eexists. split; [reflexivity|].
    assert (Hno : ~ In "010"%char (trim (firstLine chunk))).
    { intros H. apply trim_incl in H. now apply firstLine_no_LF in H. }
    destruct (Nat.ltb_spec 50 (length (trim (firstLine chunk)))) as [Hlong|Hshort].
    + split; [|split].
      * unfold substring0. rewrite length_app, length_firstn.
        change (length (lit "...")) with 3%nat. lia.
      * intros H. apply in_app_or in H. destruct H as [H|H].
        -- apply Hno. unfold substring0 in H.
           rewrite <- (firstn_skipn 50 (trim (firstLine chunk))).
           apply in_or_app. now left.
        -- simpl in H. intuition discriminate.
      * lia.
    + split; [lia|]. split; [exact Hno|reflexivity].
  - intros chunk' index' E. unfold createChunkTitle in E.
    apply app_inv_head in E. apply app_inv_head in E.
    change (lit ") - ") with (")"%char :: lit " - ") in E.
    rewrite <- !app_comm_cons in E.
    apply numeral_prefix_unique in E;
      [|apply decimal_digits|apply decimal_digits|reflexivity].
    apply (f_equal readDecimal) in E. rewrite !readDecimal_decimal in E. lia.
Qed.

(** *** When the handlers chunk *)

Lemma estimate_over_max content :
  (MAX_TOKENS <? estimateTokenCount (Some content)) = (32000 <? len content).
Proof.
  unfold estimateTokenCount, MAX_TOKENS.
  destruct content as [|c content']; [reflexivity|].
  rewrite Qceiling_quarter. set (n := len (c :: content')).
  pose proof (Z.div_mod (- n) 4 ltac:(lia)).
  pose proof (Z.mod_pos_bound (- n) 4 ltac:(lia)).
  destruct (Z.ltb_spec 8000 (- (- n / 4))), (Z.ltb_spec 32000 n); try reflexivity; lia.
Qed.



End TitleFacts.

(* ================================================================== *)
(** ** More on similarity and retrieval                                *)
(* ================================================================== *)

Module RetrievalFacts.
Import JS Db Ranking JSFacts Inputs DbFacts.

(** *** Multiplication of binary64 numbers commutes *)

Lemma SFmul_comm prec emax x y :
  SpecFloat.SFmul prec emax x y = SpecFloat.SFmul prec emax y x.
Proof.
  destruct x as [sx|sx| |sx mx ex], y as [sy|sy| |sy my ey]; simpl;
    try reflexivity; rewrite (xorb_comm sx sy); try reflexivity.
  now rewrite Pos.mul_comm, Z.add_comm.
Qed.

Lemma float_mul_comm (x y : number) : (x * y)%float = (y * x)%float.
Proof.
  apply FloatAxioms.Prim2SF_inj. rewrite !FloatAxioms.mul_spec. apply SFmul_comm.
Qed.

(** *** Symmetry *)

Lemma fold_accumulate_swap A B : forall l acc,
  fold_left (accumulate B A) l (swapSums acc)
  = swapSums (fold_left (accumulate A B) l acc).
Proof.
  induction l as [|i l IH]; intros acc; [reflexivity|].
  cbn [fold_left]. rewrite <- IH. f_equal.
  unfold accumulate, swapSums. simpl.
  now rewrite (float_mul_comm (at_ B i) (at_ A i)).
Qed.

(** X7.  [cosineSimilarity] is symmetric in its two vectors, over all
    binary64 coordinates: it throws for the one order exactly when it
    throws for the other, and otherwise returns the same number. *)
Theorem cosineSimilarity_symmetric (vectorA vectorB : list number) :
  cosineSimilarity vectorA vectorB = cosineSimilarity vectorB vectorA.
Proof.
  unfold cosineSimilarity. rewrite (Nat.eqb_sym (length vectorB)).
  destruct (Nat.eqb_spec (length vectorA) (length vectorB)) as [Hlen|Hlen];
    [|reflexivity].
  simpl negb. cbv iota.
  assert (E : cosineSums vectorB vectorA = swapSums (cosineSums vectorA vectorB)).
  { unfold cosineSums. rewrite <- Hlen.
    now rewrite <- fold_accumulate_swap. }
  rewrite E. unfold swapSums. simpl.
  rewrite (orb_comm (normB _ =? 0)%float).
  destruct (_ || _); [reflexivity|].
  now rewrite (float_mul_comm (sqrt (normB (cosineSums vectorA vectorB)))).
Qed.

(** *** What a result can contain *)

Lemma In_slice {A : Type} (l : list A) (a b : Z) (x : A) :
  In x (slice l a b) -> In x l.
Proof.
  unfold slice. intros H.
  rewrite <- (firstn_skipn (Z.to_nat (rel_index (len l) a)) l).
  apply in_or_app. right.
  rewrite <- (firstn_skipn (Z.to_nat (rel_index (len l) b - rel_index (len l) a))
                (skipn (Z.to_nat (rel_index (len l) a)) l)).
  apply in_or_app. now left.
Qed.

Lemma length_slice_le {A : Type} (l : list A) (a b : Z) :
  (length (slice l a b) <= length l)%nat.
Proof.
  unfold slice. rewrite length_firstn, length_skipn. lia.
Qed.

Lemma Forall2_In_right {A B : Type} (R : A -> B -> Prop) (l1 : list A) (l2 : list B) (y : B) :
  Forall2 R l1 l2 -> In y l2 -> exists x, In x l1 /\ R x y.
Proof.
  induction 1 as [|a b l1 l2 HR _ IH]; intros Hy; [inversion Hy|].
  destruct Hy as [<-|Hy].
  - exists a. split; [now left|assumption].
  - destruct (IH Hy) as [x [Hx HRx]]. exists x. split; [now right|assumption].
Qed.

Lemma scoreAll_inv q : forall cs l,
  scoreAll cs q = Ok l ->
  Forall2 (fun item r => exists s, cosineSimilarity q (embeddingOf item) = Ok s
                                  /\ r = withSimilarity item s)
          (filter hasEmbedding cs) l.
Proof.
  induction cs as [|c cs IH]; intros l H.
  - injection H as <-. constructor.
  - rewrite scoreAll_cons in H. simpl. destruct (hasEmbedding c); [|now apply IH].
    destruct (cosineSimilarity q (embeddingOf c)) as [s|t] eqn:Hs; [|discriminate].
    simpl in H. destruct (scoreAll cs q) as [ys|t]; [|discriminate].
    simpl in H. injection H as <-. constructor; [eauto|now apply IH].
Qed.

Lemma cosineSimilarity_Ok_length q e s :
  cosineSimilarity q e = Ok s -> length e = length q.
Proof.
  intros H. destruct (Nat.eq_dec (length q) (length e)) as [E|E]; [congruence|].
  rewrite (@cosineSimilarity_mismatch q e E) in H. discriminate.
Qed.

(** X8.  Whatever the limit, every record that [findSimilarContexts]
    returns is a stored record with a non-empty embedding of the query's
    dimension, unchanged but for its [similarity], which is the cosine
    similarity of the query and that embedding; and no more records are
    returned than the store has with a non-empty embedding. *)
Theorem findSimilarContexts_returns_stored_records cs q limit result :
  findSimilarContexts (Some cs) q limit = Ok result ->
  (forall r, In r result ->
     exists item s,
       In item cs
       /\ hasEmbedding item = true
       /\ length (embeddingOf item) = length q
       /\ cosineSimilarity q (embeddingOf item) = Ok s
       /\ r = withSimilarity item s)
  /\ (length result <= length (filter hasEmbedding cs))%nat.
Proof.
  intros H. rewrite findSimilarContexts_rankAll in H. unfold rankAll in H.
  destruct (scoreAll cs q) as [l|t] eqn:Hl; [|discriminate].
  simpl in H. injection H as <-.
  pose proof (scoreAll_inv _ _ Hl) as HF. split.
  - intros r Hr. apply In_slice in Hr.
    apply (Permutation_in _ (sort_perm l)) in Hr.
    destruct (Forall2_In_right r HF Hr) as [item [Hin [s [Hs Hr']]]].
    apply filter_In in Hin. destruct Hin as [Hin Hemb].
    exists item, s. repeat split; try assumption.
    now apply cosineSimilarity_Ok_length with (s := s).
  - pose proof (length_slice_le (sort l) 0 limit) as H.
    rewrite (Permutation_length (sort_perm l)) in H.
    rewrite <- (Forall2_length HF) in H. exact H.
Qed.

Lemma findSimilarContexts_returns_stored_records_witness :
  (length (firstn 3 (sort (scored fiveRecords query2)))
   <= length (filter hasEmbedding fiveRecords))%nat.
Proof.
  apply (@findSimilarContexts_returns_stored_records fiveRecords query2 3).
  vm_compute. reflexivity.
Defined.

(** *** Smaller and larger limits *)

(** X9.  The result for a limit is a prefix of the result for any larger
    limit: if the call with limit [m] returns [rm], the call with a limit
    [k] between 0 and [m] returns the first [k] records of [rm]. *)
Theorem findSimilarContexts_limit_prefix contexts q k m rm :
  0 <= k <= m ->
  findSimilarContexts contexts q m = Ok rm ->
  findSimilarContexts contexts q k = Ok (firstn (Z.to_nat k) rm).
Proof.
  intros Hk H. rewrite findSimilarContexts_rankAll in *.
  destruct (rankAll contexts q) as [ranked|t]; [|discriminate].
  simpl in *. injection H as <-. f_equal.
  rewrite !slice_to_limit by lia.
  rewrite firstn_firstn. f_equal. lia.
Qed.

Lemma findSimilarContexts_limit_prefix_witness :
  findSimilarContexts (Some fiveRecords) query2 2
  = Ok (firstn (Z.to_nat 2) (firstn 4 (sort (scored fiveRecords query2)))).
Proof.
  apply (@findSimilarContexts_limit_prefix (Some fiveRecords) query2 2 4).
  - lia.
  - vm_compute. reflexivity.
Defined.

(** *** Records without an embedding *)

Lemma filter_idem {A : Type} (f : A -> bool) (l : list A) :
  filter f (filter f l) = filter f l.
Proof.
  induction l as [|a l IH]; [reflexivity|]. simpl.
  destruct (f a) eqn:E; simpl; rewrite ?E, IH; reflexivity.
Qed.

Lemma findSimilarContexts_filter cs q limit :
  findSimilarContexts (Some cs) q limit
  = findSimilarContexts (Some (filter hasEmbedding cs)) q limit.
Proof.
  rewrite !findSimilarContexts_rankAll. unfold rankAll, scoreAll.
  now rewrite filter_idem.
Qed.

(** X10.  A stored record whose embedding is absent or empty has no
    effect on retrieval: with such a record anywhere in the store, every
    query and limit give the same outcome, a result or an error, as
    without it. *)
Theorem findSimilarContexts_ignores_unembedded before item after q limit :
  hasEmbedding item = false ->
  findSimilarContexts (Some (before ++ item :: after)) q limit
  = findSimilarContexts (Some (before ++ after)) q limit.
Proof.
  intros H.
  rewrite (findSimilarContexts_filter (before ++ item :: after)).
  rewrite (findSimilarContexts_filter (before ++ after)).
  rewrite !filter_app. simpl. now rewrite H.
Qed.

Lemma findSimilarContexts_ignores_unembedded_witness :
  findSimilarContexts (Some ([record 0 [0; 1]%float] ++ record 9 [] :: twoRecords))
                      query2 3
  = findSimilarContexts (Some ([record 0 [0; 1]%float] ++ twoRecords)) query2 3.
Proof.
  apply findSimilarContexts_ignores_unembedded. reflexivity.
Defined.

(** *** A query of zero norm *)

Lemma cosineSimilarity_zero_query q e :
  zeroNorm q -> length q = length e -> cosineSimilarity q e = Ok 0%float.
Proof.
  intros Hz Hlen. unfold cosineSimilarity.
  rewrite Hlen, Nat.eqb_refl. simpl negb. cbv iota.
  rewrite cosineSums_normA. unfold zeroNorm in Hz. now rewrite Hz.
Qed.

Lemma sort_all_zero : forall l,
  Forall (fun r => similarity r = Some 0%float) l -> sort l = l.
Proof.
  induction l as [|x l IH]; intros H; [reflexivity|].
  inversion H as [|? ? Hx Hl]; subst. simpl. rewrite (IH Hl).
  destruct l as [|y l']; [reflexivity|].
  inversion Hl as [|? ? Hy _]; subst. simpl.
  unfold sortsAfter, comparator, similarityOf. now rewrite Hx, Hy.
Qed.

(** X11.  For a query of zero norm and a store whose non-empty
    embeddings have the query's dimension, every similarity is 0 and
    nothing is reordered: the result is the first [limit] records with a
    non-empty embedding, in store order, each with similarity 0. *)
Theorem findSimilarContexts_zero_query cs q limit :
  zeroNorm q -> dimensionsMatch q cs -> 0 <= limit ->
  findSimilarContexts (Some cs) q limit
  = Ok (firstn (Z.to_nat limit)
               (map (fun item => withSimilarity item 0%float)
                    (filter hasEmbedding cs))).
Proof.
  intros Hz Hdim Hlimit.
  rewrite findSimilarContexts_rankAll. unfold rankAll.
  rewrite (scoreAll_match Hdim). simpl. f_equal.
  assert (E : scored cs q
              = map (fun item => withSimilarity item 0%float)
                    (filter hasEmbedding cs)).
  { unfold scored. apply map_ext_in. intros item Hin.
    apply filter_In in Hin. destruct Hin as [Hin Hemb].
    unfold dimensionsMatch in Hdim. rewrite Forall_forall in Hdim.
    unfold similarityTo.
    rewrite cosineSimilarity_zero_query; [reflexivity|assumption|].
    symmetry. now apply Hdim. }
  rewrite E, sort_all_zero, slice_to_limit by
      (try assumption; apply Forall_forall; intros r Hr;
       apply in_map_iff in Hr; destruct Hr as [item [<- _]]; reflexivity).
  reflexivity.
Qed.

Lemma findSimilarContexts_zero_query_witness :
  findSimilarContexts (Some fiveRecords) [0; 0]%float 2
  = Ok (firstn (Z.to_nat 2)
               (map (fun item => withSimilarity item 0%float)
                    (filter hasEmbedding fiveRecords))).
Proof.
  apply findSimilarContexts_zero_query.
  - reflexivity.
  - unfold dimensionsMatch, fiveRecords.
    repeat (apply Forall_cons; [intros _; reflexivity|]). apply Forall_nil.
  - lia.
Defined.

End RetrievalFacts.

(* ================================================================== *)
(** ** From ingestion to retrieval                                     *)
(* ================================================================== *)

Module RoundTripFacts.
Import JS Db Ranking Ingestion Batch JSFacts Inputs DbFacts IngestionFacts.

Lemma In_resumed (textChunks : list str) (order : list nat) i chunk :
  Permutation order (seq 0 (length textChunks)) ->
  nth_error textChunks i = Some chunk ->
  In (i, chunk) (resumed textChunks order).
Proof.
  intros Hperm Hnth. unfold resumed. apply in_flat_map. exists i. split.
  - apply (Permutation_in _ (Permutation_sym Hperm)). apply in_seq.
    assert (i < length textChunks)%nat by (apply nth_error_Some; congruence). lia.
  - rewrite Hnth. now left.
Qed.

Lemma appendedTo_In before after items item :
  appendedTo before after items -> In item items ->
  exists stored, after = Some stored /\ In item stored.
Proof.
  unfold appendedTo, pushAll. intros H Hin.
  destruct items as [|x xs]; [inversion Hin|].
  eexists. split; [exact H|]. apply in_or_app. now right.
Qed.

Lemma retrieve_all stored q limit :
  dimensionsMatch q stored -> len stored <= limit ->
  findSimilarContexts (Some stored) q limit = Ok (sort (scored stored q)).
Proof.
  intros Hdim Hlimit.
  rewrite findSimilarContexts_rankAll. unfold rankAll.
  rewrite (scoreAll_match Hdim). simpl. f_equal.
  rewrite slice_to_limit by (unfold len in *; lia).
  apply firstn_all2. rewrite (Permutation_length (sort_perm _)).
  unfold scored. rewrite length_map.
  pose proof (filter_length_le hasEmbedding stored). unfold len in Hlimit. lia.
Qed.

(** X12.  A chunk for which the provider returned a non-empty embedding
    is in the store when the upload handler is done, whatever the order
    of completion; and a later query of the same dimension as every
    embedding in the store, with a limit no smaller than the store,
    returns that record with the cosine similarity of the query and its
    embedding, among a permutation of all records that have an
    embedding. *)
Theorem uploaded_chunk_is_retrievable env order file textChunks w i chunk e q limit :
  Permutation order (seq 0 (length textChunks)) ->
  nth_error textChunks i = Some chunk ->
  embedQuery env i chunk = Ok e ->
  e <> [] ->
  exists stored,
    context (snd (uploadChunks env order file textChunks w)) = Some stored
    /\ In (fileItem env file (length textChunks) i chunk e) stored
    /\ (dimensionsMatch q stored -> len stored <= limit ->
        exists ranked s,
          findSimilarContexts (Some stored) q limit = Ok ranked
          /\ cosineSimilarity q e = Ok s
          /\ In (withSimilarity (fileItem env file (length textChunks) i chunk e) s)
                ranked
          /\ Permutation ranked (scored stored q)).
Proof.
  intros Hperm Hnth Hembed Hne.
  set (item := fileItem env file (length textChunks) i chunk e).
  assert (Hitem : In item (flat_map (fileItems env file (length textChunks))
                                    (resumed textChunks order))).
  { apply in_flat_map. exists (i, chunk). split; [now apply In_resumed|].
    unfold fileItems. simpl. rewrite Hembed. now left. }
  destruct (@appendedTo_In _ _ _ item
              (fold_uploadResume env file (length textChunks)
                 (resumed textChunks order) (context w)) Hitem)
    as [stored [Hstored Hin]].
  exists stored. split; [exact Hstored|]. split; [exact Hin|].
  intros Hdim Hlimit.
  assert (Hemb : hasEmbedding item = true).
  { unfold hasEmbedding, item, fileItem. simpl. destruct e; [congruence|reflexivity]. }
  assert (Hlen : length q = length e).
  { unfold dimensionsMatch in Hdim. rewrite Forall_forall in Hdim.
    symmetry. exact (Hdim item Hin Hemb). }
  destruct (cosineSimilarity_defined _ _ Hlen) as [s Hs].
  exists (sort (scored stored q)), s.
  split; [now apply retrieve_all|]. split; [exact Hs|]. split; [|apply sort_perm].
  apply (Permutation_in _ (Permutation_sym (sort_perm _))).
  unfold scored. apply in_map_iff. exists item. split.
  - unfold similarityTo. change (embeddingOf item) with e. now rewrite Hs.
  - apply filter_In. now split.
Qed.

Lemma uploaded_chunk_is_retrievable_witness :
  exists stored,
    context (snd (uploadChunks rateLimited [2; 0; 1]%nat notes threeChunks emptyWorld))
    = Some stored
    /\ In (fileItem rateLimited notes 3 2 (lit "z") [1; 0]%float) stored
    /\ (dimensionsMatch query2 stored -> len stored <= 5 ->
        exists ranked s,
          findSimilarContexts (Some stored) query2 5 = Ok ranked
          /\ cosineSimilarity query2 [1; 0]%float = Ok s
          /\ In (withSimilarity (fileItem rateLimited notes 3 2 (lit "z") [1; 0]%float) s)
                ranked
          /\ Permutation ranked (scored stored query2)).
Proof.
  apply (@uploaded_chunk_is_retrievable rateLimited [2; 0; 1]%nat notes threeChunks
           emptyWorld 2%nat (lit "z") [1; 0]%float query2 5).
  - apply (perm_trans (perm_swap 0%nat 2%nat [1%nat])).
    apply perm_skip. apply perm_swap.
  - reflexivity.
  - reflexivity.
  - discriminate.
Defined.

End RoundTripFacts.

(* ================================================================== *)
(** ** Text extraction and what the upload handler does with it        *)
(* ================================================================== *)

Module ExtractionFacts.
Import JS TextProcessing Db Ingestion Extraction JSFacts Inputs Samples TitleFacts.

Lemma trimStart_keeps c : forall s,
  isWhiteSpace c = false -> In c s -> trimStart s <> [].
Proof.
  intros s Hc. induction s as [|a s IH]; intros Hin; [inversion Hin|].
  simpl. destruct (isWhiteSpace a) eqn:Ha; [|discriminate].
  destruct Hin as [->|Hin]; [congruence|exact (IH Hin)].
Qed.

Lemma trim_nonblank c s : isWhiteSpace c = false -> trim (c :: s) <> [].
Proof.
  intros Hc. unfold trim. simpl. rewrite Hc.
  assert (H : trimStart (rev' (c :: s)) <> []).
  { apply (@trimStart_keeps c); [exact Hc|].
    rewrite rev'_rev. apply in_rev. rewrite rev_involutive. now left. }
  destruct (trimStart (rev' (c :: s))) as [|x l]; [congruence|].
  rewrite rev'_rev. simpl. intros E. now apply app_eq_nil in E.
Qed.

Lemma noContent_nonblank c s : isWhiteSpace c = false -> noContent (c :: s) = false.
Proof.
  intros Hc. unfold noContent.
  pose proof (@trim_nonblank c s Hc).
  destruct (trim (c :: s)); [congruence|reflexivity].
Qed.

Lemma len_app (a b : str) : len (a ++ b) = len a + len b.
Proof. unfold len. rewrite length_app. lia. Qed.

Lemma textChunksOf_short fuel content :
  len content <= 32000 -> textChunksOf fuel content = Some [content].
Proof.
  intros H. unfold textChunksOf. rewrite estimate_over_max.
  destruct (Z.ltb_spec 32000 (len content)); [lia|reflexivity].
Qed.

Lemma readExcel_accepted fs filepath : accepted (readExcel fs filepath).
Proof.
  unfold readExcel, accepted.
  destruct (readWorkbook fs filepath) as [sheets|e].
  - unfold renderWorkbook. destruct sheets as [|sheet rest]; [split; reflexivity|].
    simpl. split; [now apply noContent_nonblank|reflexivity].
  - split; [now apply noContent_nonblank|reflexivity].
Qed.

Lemma readCsv_accepted fs filepath content :
  readCsv fs filepath = Some content -> accepted content.
Proof.
  unfold readCsv, accepted.
  destruct (parseCsv fs filepath) as [results|e|]; intros E; inversion E; subst.
  - unfold renderCsv. destruct results as [|first rest]; [split; reflexivity|].
    split; [now apply noContent_nonblank|reflexivity].
  - split; [now apply noContent_nonblank|reflexivity].
Qed.

Lemma processFile_accepted fuel env order file content w :
  accepted content ->
  processFile fuel env order file content w
  = match textChunksOf fuel content with
    | Some textChunks => Some (uploadChunks env order file textChunks w)
    | None => None
    end.
Proof.
  intros [Hn Hs]. unfold processFile. rewrite Hn, Hs.
  now destruct (textChunksOf fuel content).
Qed.

(** X13.  A file that takes the Excel or the CSV branch is never
    answered with an error report.  Whenever [readFileContent] returns
    for it, with a caught exception of the workbook reader or of the CSV
    parser included, the text is neither blank nor one of the two
    prefixes the handler looks for, so the handler goes on to chunk and
    embed it.  [readFileContent] returns for every file of the Excel
    branch; for a file of the CSV branch it does not return exactly
    when the read stream fails, whose error no listener receives, and
    then the callback of the file does not return either. *)
Theorem spreadsheet_upload_never_rejected fuel fs env order file w :
  isPdfKind (file_filepath file) (mimetype file) = false ->
  isDocxKind (file_filepath file) (mimetype file) = false ->
  isExcelKind (file_filepath file) (mimetype file)
  || isCsvKind (file_filepath file) (mimetype file) = true ->
  (forall content,
      readFileContent fs (file_filepath file) (mimetype file) = Some content ->
      noContent content = false
      /\ isSentinel content = false
      /\ fileCallback fuel fs env order file w
         = match textChunksOf fuel content with
           | Some textChunks => Some (uploadChunks env order file textChunks w)
           | None => None
           end)
  /\ (readFileContent fs (file_filepath file) (mimetype file) = None
      <-> isExcelKind (file_filepath file) (mimetype file) = false
          /\ parseCsv fs (file_filepath file) = CsvUnsettled)
  /\ (readFileContent fs (file_filepath file) (mimetype file) = None ->
      fileCallback fuel fs env order file w = None).
Proof.
  intros Hpdf Hdocx Hkind. split; [|split].
  - intros content Hread.
    assert (H : accepted content).
    { unfold readFileContent in Hread. rewrite Hpdf, Hdocx in Hread.
      destruct (isExcelKind _ _).
      - inversion Hread. apply readExcel_accepted.
      - simpl in Hkind. rewrite Hkind in Hread.
        exact (readCsv_accepted _ _ Hread). }
    split; [apply H|]. split; [apply H|].
    unfold fileCallback. rewrite Hread. now apply processFile_accepted.
  - unfold readFileContent. rewrite Hpdf, Hdocx.
    destruct (isExcelKind _ _).
    + split; [discriminate|intros [H _]; discriminate].
    + simpl in Hkind. rewrite Hkind. unfold readCsv.
      destruct (parseCsv fs (file_filepath file)); split;
        solve [discriminate | intros [_ H]; discriminate | auto].
  - intros Hread. unfold fileCallback. now rewrite Hread.
Qed.

Lemma spreadsheet_upload_never_rejected_witness :
  (noContent (lit "[Error processing Excel file: File is password-protected]") = false
   /\ isSentinel (lit "[Error processing Excel file: File is password-protected]")
      = false
   /\ fileCallback 0 brokenDisk answering [0%nat] ledger emptyWorld
      = match textChunksOf 0
                (lit "[Error processing Excel file: File is password-protected]") with
        | Some textChunks =>
            Some (uploadChunks answering [0%nat] ledger textChunks emptyWorld)
        | None => None
        end)
  /\ fileCallback 0 missingCsvDisk answering [0%nat] prices emptyWorld = None.
Proof.
  split.
  - apply (proj1 (@spreadsheet_upload_never_rejected 0 brokenDisk answering [0%nat]
                    ledger emptyWorld eq_refl eq_refl eq_refl)).
    reflexivity.
  - apply (proj2 (proj2 (@spreadsheet_upload_never_rejected 0 missingCsvDisk answering
                           [0%nat] prices emptyWorld eq_refl eq_refl eq_refl))).
    reflexivity.
Defined.

(** X14.  When the workbook cannot be read, or the CSV parser fails
    and so rejects the promise, the text the handler embeds is the
    error text itself: for an error message of at most 31000 characters
    it is the only chunk, it is submitted to the embedding provider, the
    report carries no error, and the record stored on success has the
    error text as its content. *)
Theorem unreadable_spreadsheet_is_embedded fuel fs env file w e :
  isPdfKind (file_filepath file) (mimetype file) = false ->
  isDocxKind (file_filepath file) (mimetype file) = false ->
  (isExcelKind (file_filepath file) (mimetype file) = true
   /\ readWorkbook fs (file_filepath file) = Throw e)
  \/ (isExcelKind (file_filepath file) (mimetype file) = false
      /\ isCsvKind (file_filepath file) (mimetype file) = true
      /\ parseCsv fs (file_filepath file) = CsvRejected e) ->
  len (errorMessage e) <= 31000 ->
  exists text,
    (text = lit "[Error processing Excel file: " ++ errorMessage e ++ lit "]"
     \/ text = lit "[Error processing CSV file: " ++ errorMessage e ++ lit "]")
    /\ fileCallback fuel fs env [0%nat] file w
       = Some (uploadChunks env [0%nat] file [text] w)
    /\ error (fst (uploadChunks env [0%nat] file [text] w)) = None
    /\ embedCalls (snd (uploadChunks env [0%nat] file [text] w))
       = embedCalls w ++ [text]
    /\ forall embedding,
        embedQuery env 0 text = Ok embedding ->
        context (snd (uploadChunks env [0%nat] file [text] w))
        = pushAll (context w) [fileItem env file 1 0 text embedding].
Proof.
  intros Hpdf Hdocx Hkind Hlen.
  assert (Hread : exists kind,
             (kind = lit "Excel" \/ kind = lit "CSV")
             /\ readFileContent fs (file_filepath file) (mimetype file)
                = Some (lit "[Error processing " ++ kind ++ lit " file: "
                        ++ errorMessage e ++ lit "]")).
  { unfold readFileContent. rewrite Hpdf, Hdocx.
    destruct Hkind as [[Hx Hthrow]|[Hx [Hc Hthrow]]]; rewrite Hx.
    - exists (lit "Excel"). split; [now left|]. unfold readExcel. now rewrite Hthrow.
    - exists (lit "CSV"). split; [now right|]. rewrite Hc. unfold readCsv.
      now rewrite Hthrow. }
  destruct Hread as [kind [Hk Hread]].
  exists (lit "[Error processing " ++ kind ++ lit " file: " ++ errorMessage e ++ lit "]").
  set (text := lit "[Error processing " ++ kind ++ lit " file: "
               ++ errorMessage e ++ lit "]") in *.
  assert (Hacc : accepted text).
  { destruct Hk as [-> | ->]; split;
      solve [now apply noContent_nonblank | reflexivity]. }
  assert (Hshort : len text <= 32000).
  { unfold text. rewrite !len_app.
    change (len (lit "[Error processing ")) with 18.
    change (len (lit " file: ")) with 7. change (len (lit "]")) with 1.
    destruct Hk as [-> | ->];
      [change (len (lit "Excel")) with 5 | change (len (lit "CSV")) with 3]; lia. }
  split; [destruct Hk as [-> | ->]; [now left|now right]|].
  split.
  { unfold fileCallback. rewrite Hread.
    rewrite (@processFile_accepted fuel env [0%nat] file text w Hacc).
    now rewrite (@textChunksOf_short fuel text Hshort). }
  split; [reflexivity|]. split; [reflexivity|].
  intros embedding Hemb. simpl. now rewrite Hemb.
Qed.

(** A workbook that cannot be opened, and a CSV file on which the
    parser fails. *)
Lemma unreadable_spreadsheet_is_embedded_witness :
  (exists text,
      (text = lit "[Error processing Excel file: " ++ lit "File is password-protected"
              ++ lit "]"
       \/ text = lit "[Error processing CSV file: " ++ lit "File is password-protected"
                 ++ lit "]")
      /\ fileCallback 0 brokenDisk answering [0%nat] ledger emptyWorld
         = Some (uploadChunks answering [0%nat] ledger [text] emptyWorld)
      /\ error (fst (uploadChunks answering [0%nat] ledger [text] emptyWorld)) = None
      /\ embedCalls (snd (uploadChunks answering [0%nat] ledger [text] emptyWorld))
         = embedCalls emptyWorld ++ [text]
      /\ forall embedding,
          embedQuery answering 0 text = Ok embedding ->
          context (snd (uploadChunks answering [0%nat] ledger [text] emptyWorld))
          = pushAll (context emptyWorld) [fileItem answering ledger 1 0 text embedding])
  /\ (exists text,
         (text = lit "[Error processing Excel file: "
                 ++ lit "Row length does not match headers" ++ lit "]"
          \/ text = lit "[Error processing CSV file: "
                    ++ lit "Row length does not match headers" ++ lit "]")
         /\ fileCallback 0 brokenDisk answering [0%nat] prices emptyWorld
            = Some (uploadChunks answering [0%nat] prices [text] emptyWorld)
         /\ error (fst (uploadChunks answering [0%nat] prices [text] emptyWorld)) = None
         /\ embedCalls (snd (uploadChunks answering [0%nat] prices [text] emptyWorld))
            = embedCalls emptyWorld ++ [text]
         /\ forall embedding,
             embedQuery answering 0 text = Ok embedding ->
             context (snd (uploadChunks answering [0%nat] prices [text] emptyWorld))
             = pushAll (context emptyWorld)
                       [fileItem answering prices 1 0 text embedding]).
Proof.
  split.
  - apply (@unreadable_spreadsheet_is_embedded 0 brokenDisk answering ledger emptyWorld
             (ErrorObj (lit "File is password-protected"))).
    + reflexivity.
    + reflexivity.
    + left. split; reflexivity.
    + vm_compute. discriminate.
  - apply (@unreadable_spreadsheet_is_embedded 0 brokenDisk answering prices emptyWorld
             (ErrorObj (lit "Row length does not match headers"))).
    + reflexivity.
    + reflexivity.
    + right. split; [reflexivity|]. split; reflexivity.
    + vm_compute. discriminate.
Defined.

(** X15.  A PDF whose file cannot be read, or whose parser throws on a
    non-empty buffer, is answered with an error report that carries the
    bracketed error text, with no chunk and nothing embedded or
    stored. *)
Theorem pdf_extraction_failure_is_reported fuel fs env order file w e :
  isPdfKind (file_filepath file) (mimetype file) = true ->
  readFile fs (file_filepath file) = Throw e
  \/ (exists bufferLength,
         readFile fs (file_filepath file) = Ok bufferLength
         /\ bufferLength <> 0
         /\ pdfParse fs (file_filepath file) = Throw e) ->
  exists text,
    (text = lit "[Error reading PDF file: " ++ errorMessage e ++ lit "]"
     \/ text = lit "[Error parsing PDF: " ++ errorMessage e ++ lit "]")
    /\ fileCallback fuel fs env order file w = Some (errorReport file text false, w)
    /\ error (errorReport file text false) = Some text
    /\ totalChunks (errorReport file text false) = 0%nat.
Proof.
  intros Hpdf Hfail.
  assert (Hread : exists text,
             (text = lit "[Error reading PDF file: " ++ errorMessage e ++ lit "]"
              \/ text = lit "[Error parsing PDF: " ++ errorMessage e ++ lit "]")
             /\ readFileContent fs (file_filepath file) (mimetype file)
                = Some text).
  { unfold readFileContent, readPdf. rewrite Hpdf.
    destruct Hfail as [Hthrow|[n [Hok [Hn Hthrow]]]].
    - rewrite Hthrow. eexists. split; [left; reflexivity|reflexivity].
    - rewrite Hok, Hthrow. destruct (Z.eqb_spec n 0); [contradiction|].
      eexists. split; [right; reflexivity|reflexivity]. }
  destruct Hread as [text [Htext Hread]].
  exists text. split; [exact Htext|]. split; [|split; reflexivity].
  unfold fileCallback. rewrite Hread. unfold processFile.
  destruct Htext as [-> | ->];
    match goal with
    | |- context [noContent ?t] =>
        replace (noContent t) with false by (symmetry; now apply noContent_nonblank)
    end; reflexivity.
Qed.

Lemma pdf_extraction_failure_is_reported_witness :
  exists text,
    (text = lit "[Error reading PDF file: " ++ lit "ENOENT" ++ lit "]"
     \/ text = lit "[Error parsing PDF: " ++ lit "ENOENT" ++ lit "]")
    /\ fileCallback 0 brokenDisk answering [0%nat] scan emptyWorld
       = Some (errorReport scan text false, emptyWorld)
    /\ error (errorReport scan text false) = Some text
    /\ totalChunks (errorReport scan text false) = 0%nat.
Proof.
  apply (@pdf_extraction_failure_is_reported 0 brokenDisk answering [0%nat] scan
           emptyWorld (ErrorObj (lit "ENOENT"))).
  - reflexivity.
  - left. reflexivity.
Defined.

(** X16.  For a PDF whose file was read: when the buffer is empty or the
    parser delivers no text or the empty text, the handler answers with
    the image-only report and embeds nothing; when the parser delivers
    a text that is not empty but all white space, the handler embeds
    the placeholder sentence as the file's only chunk and reports no
    error. *)
Theorem pdf_without_text fuel fs env file w bufferLength :
  isPdfKind (file_filepath file) (mimetype file) = true ->
  readFile fs (file_filepath file) = Ok bufferLength ->
  (bufferLength = 0
   \/ pdfParse fs (file_filepath file) = Ok None
   \/ pdfParse fs (file_filepath file) = Ok (Some []) ->
   fileCallback fuel fs env [0%nat] file w
   = Some (errorReport file
             (lit "This PDF might be image-only or scanned. No text content could be extracted.")
             true, w))
  /\ (forall text,
        bufferLength <> 0 ->
        pdfParse fs (file_filepath file) = Ok (Some text) ->
        text <> [] -> trim text = [] ->
        fileCallback fuel fs env [0%nat] file w
        = Some (uploadChunks env [0%nat] file [pdfPlaceholder] w)
        /\ error (fst (uploadChunks env [0%nat] file [pdfPlaceholder] w)) = None
        /\ isPdfWithoutText (fst (uploadChunks env [0%nat] file [pdfPlaceholder] w))
           = false
        /\ embedCalls (snd (uploadChunks env [0%nat] file [pdfPlaceholder] w))
           = embedCalls w ++ [pdfPlaceholder]).
Proof.
  intros Hpdf Hok. split.
  - intros Hnone.
    assert (Hread : readFileContent fs (file_filepath file) (mimetype file)
                    = Some []).
    { unfold readFileContent, readPdf. rewrite Hpdf, Hok.
      destruct (Z.eqb_spec bufferLength 0) as [|Hn]; [reflexivity|].
      destruct Hnone as [H|[H|H]]; [contradiction|now rewrite H|now rewrite H]. }
    unfold fileCallback. rewrite Hread. unfold processFile. simpl.
    change (isPdf file) with (isPdfKind (file_filepath file) (mimetype file)).
    now rewrite Hpdf.
  - intros text Hn Hparse Htext Hblank.
    assert (Hread : readFileContent fs (file_filepath file) (mimetype file)
                    = Some pdfPlaceholder).
    { unfold readFileContent, readPdf. rewrite Hpdf, Hok, Hparse.
      destruct (Z.eqb_spec bufferLength 0); [contradiction|].
      destruct text as [|c text']; [congruence|]. now rewrite Hblank. }
    split; [|repeat split].
    unfold fileCallback. rewrite Hread.
    rewrite (@processFile_accepted fuel env [0%nat] file pdfPlaceholder w)
      by (split; vm_compute; reflexivity).
    rewrite (@textChunksOf_short fuel pdfPlaceholder) by (vm_compute; discriminate).
    reflexivity.
Qed.

Lemma pdf_without_text_witness :
  fileCallback 0 scannedDisk answering [0%nat] scan emptyWorld
  = Some (uploadChunks answering [0%nat] scan [pdfPlaceholder] emptyWorld)
  /\ error (fst (uploadChunks answering [0%nat] scan [pdfPlaceholder] emptyWorld)) = None
  /\ isPdfWithoutText (fst (uploadChunks answering [0%nat] scan [pdfPlaceholder] emptyWorld))
     = false
  /\ embedCalls (snd (uploadChunks answering [0%nat] scan [pdfPlaceholder] emptyWorld))
     = embedCalls emptyWorld ++ [pdfPlaceholder].
Proof.
  apply (proj2 (@pdf_without_text 0 scannedDisk answering scan emptyWorld 1024
                  eq_refl eq_refl) LF).
  - discriminate.
  - reflexivity.
  - discriminate.
  - reflexivity.
Defined.

End ExtractionFacts.

(* ================================================================== *)
(** ** The choice of a scraper                                         *)
(* ================================================================== *)

Module ScrapingFacts.
Import JS TextProcessing Db Ingestion Scraping JSFacts Inputs Samples.

(** X17.  The method named in the answer tells where the content came
    from.  [static]: the page was fetched, was not taken for a
    client-side rendered one, and its static text has at least 500
    characters.  [dynamic]: the content is the browser's.
    [static (fallback)]: the page was taken for a client-side rendered
    one and the browser failed.  [static (dynamic fallback failed)]:
    the static text has fewer than 500 characters and the browser
    failed.  In the three static cases the content and the title are
    those of the static scraper on the fetched page. *)
Theorem scrapingMethod_tells_the_source web url r :
  scrape web url = Ok r ->
  let data := fst (initialResponse web) in
  let fromStatic :=
    unsuccessful (initialResponse web) = false
    /\ scrapeStaticContent web data
       = Ok (mkPage (scraped_content r) (scraped_title r)) in
  match scrapingMethod r with
  | Static =>
      fromStatic /\ isLikelyCSR web data = Ok false
      /\ 500 <= len (scraped_content r)
  | Dynamic =>
      exists dynamicResult,
        scrapeDynamicContent web = Ok dynamicResult
        /\ scraped_content r = page_content dynamicResult
  | StaticFallback =>
      fromStatic /\ isLikelyCSR web data = Ok true
      /\ exists e, scrapeDynamicContent web = Throw e
  | StaticDynamicFallbackFailed =>
      fromStatic /\ isLikelyCSR web data = Ok false
      /\ len (scraped_content r) < 500
      /\ exists e, scrapeDynamicContent web = Throw e
  end.
Proof.
  intros H data fromStatic. subst fromStatic data. unfold scrape in H.
  destruct (unsuccessful (initialResponse web)) eqn:Hu.
  { destruct (scrapeDynamicContent web) as [d|e] eqn:Hd; inversion H; subst.
    simpl. eauto. }
  unfold firstAttempt in H.
  destruct (isLikelyCSR web (fst (initialResponse web))) as [[|]|ecsr] eqn:Hc;
    cbn [bind] in H; [| |discriminate].
  - destruct (scrapeDynamicContent web) as [d|e] eqn:Hd.
    + simpl in H. unfold smallContentFallback in H. simpl in H.
      rewrite andb_false_r in H. inversion H; subst. simpl. eauto.
    + destruct (scrapeStaticContent web (fst (initialResponse web)))
        as [[sc st]|e'] eqn:Hs; simpl in H; [|discriminate].
      unfold smallContentFallback in H. simpl in H.
      rewrite andb_false_r in H. inversion H; subst. simpl. eauto.
  - destruct (scrapeStaticContent web (fst (initialResponse web)))
      as [[sc st]|e'] eqn:Hs; simpl in H; [|discriminate].
    unfold smallContentFallback in H. simpl in H. rewrite andb_true_r in H.
    destruct (Z.ltb_spec (len sc) 500) as [Hlt|Hge].
    + destruct (scrapeDynamicContent web) as [d|e] eqn:Hd;
        inversion H; subst; simpl; eauto 10.
    + inversion H; subst. simpl. auto.
Qed.

Lemma scrapingMethod_tells_the_source_witness :
  exists dynamicResult,
    scrapeDynamicContent renderedSite = Ok dynamicResult
    /\ lit "Fees are listed below." = page_content dynamicResult.
Proof.
  exact (@scrapingMethod_tells_the_source renderedSite (lit "https://example.com")
           (mkScraped (lit "Fees are listed below.") (lit "stub") Dynamic) eq_refl).
Defined.


(** A JSON body: the request is answered 500 with the error of
    [isLikelyCSR], although the browser would have delivered. *)
Lemma jsonEndpoint_fails :
  scrapeHandler 0 jsonEndpoint answering [0%nat] (lit "https://example.com/api")
                emptyWorld
  = Some (ScrapeFailed (lit "htmlContent.includes is not a function"), emptyWorld).
Proof. reflexivity. Qed.

End ScrapingFacts.

(* ================================================================== *)
(** ** The context given to the language model                         *)
(* ================================================================== *)

Module AnalysisFacts.
Import JS TextProcessing Db Ranking Ingestion Analysis JSFacts TextProcessingFacts.
Import DbFacts Inputs Samples ExtractionFacts.

Lemma quarterCeil_bounds s :
  len s <= 4 * quarterCeil s /\ 4 * quarterCeil s <= len s + 3.
Proof.
  unfold quarterCeil. rewrite Qceiling_quarter.
  pose proof (Z.div_mod (- len s) 4 ltac:(lia)).
  pose proof (Z.mod_pos_bound (- len s) 4 ltac:(lia)). lia.
Qed.

Lemma addItems_prefix : forall items context estimatedTokens,
  exists k,
    (k <= length items)%nat
    /\ fst (addItems items context estimatedTokens)
       = context ++ included (firstn k items)
         ++ (if (k <? length items)%nat then truncationNote else [])
    /\ snd (addItems items context estimatedTokens)
       = spent (firstn k items) estimatedTokens
    /\ (forall j, (j < k)%nat ->
                  spent (firstn j items) estimatedTokens
                  + quarterCeil (nth j items []) <= 4000)
    /\ ((k < length items)%nat ->
        4000 < spent (firstn k items) estimatedTokens
               + quarterCeil (nth k items [])).
Proof.
  induction items as [|item rest IH]; intros context estimatedTokens.
  - exists 0%nat. simpl. rewrite app_nil_r. repeat split; try lia.
  - cbn [addItems].
    destruct (Z.ltb_spec 4000 (estimatedTokens + quarterCeil item)) as [Hover|Hfits].
    + exists 0%nat. simpl. repeat split; try lia.
    + destruct (IH (context ++ item ++ LF2) (estimatedTokens + quarterCeil item + 2))
        as [k [Hk [Hfst [Hsnd [Hbefore Hat]]]]].
      exists (S k). split; [simpl; lia|]. split; [|split; [|split]].
      * rewrite Hfst. cbn [firstn included flat_map length].
        change (S k <? S (length rest))%nat with (k <? length rest)%nat.
        unfold included. now rewrite <- !app_assoc.
      * rewrite Hsnd. reflexivity.
      * intros [|j] Hj; [simpl; lia|].
        cbn [firstn nth]. apply (Hbefore j). lia.
      * intros Hlt. cbn [firstn nth]. apply Hat. simpl in Hlt. lia.
Qed.

(** X19.  The context given to the model is the two review lines, then,
    if any record was retrieved, the header and the descriptions of the
    first [k] records in rank order, each followed by a blank line,
    where [k] is the index of the first description that would take the
    running estimate over 4000: every description before it is
    included, it and all later ones are left out (also those that would
    have fitted), and the truncation note is appended exactly when
    something was left out. *)
Theorem compileContext_takes_a_prefix review rating items :
  items <> [] ->
  exists k,
    (k <= length items)%nat
    /\ fst (compileContext review rating items)
       = reviewLines review rating ++ contextHeader ++ included (firstn k items)
         ++ (if (k <? length items)%nat then truncationNote else [])
    /\ snd (compileContext review rating items)
       = spent (firstn k items) (quarterCeil (reviewLines review rating) + 5)
    /\ (forall j, (j < k)%nat ->
                  spent (firstn j items) (quarterCeil (reviewLines review rating) + 5)
                  + quarterCeil (nth j items []) <= 4000)
    /\ ((k < length items)%nat ->
        4000 < spent (firstn k items) (quarterCeil (reviewLines review rating) + 5)
               + quarterCeil (nth k items [])).
Proof.
  intros Hne. unfold compileContext.
  destruct items as [|item rest]; [congruence|].
  destruct (addItems_prefix (item :: rest)
              (reviewLines review rating ++ contextHeader)
              (quarterCeil (reviewLines review rating) + 5))
    as [k [Hk [Hfst [Hsnd [Hbefore Hat]]]]].
  exists k. rewrite Hfst, Hsnd, <- app_assoc. auto.
Qed.

Lemma compileContext_takes_a_prefix_witness :
  exists k,
    (k <= 2)%nat
    /\ fst (compileContext (lit "Too slow") (lit "2") [letters 16000; lit "fees"])
       = reviewLines (lit "Too slow") (lit "2") ++ contextHeader
         ++ included (firstn k [letters 16000; lit "fees"])
         ++ (if (k <? 2)%nat then truncationNote else [])
    /\ snd (compileContext (lit "Too slow") (lit "2") [letters 16000; lit "fees"])
       = spent (firstn k [letters 16000; lit "fees"])
               (quarterCeil (reviewLines (lit "Too slow") (lit "2")) + 5)
    /\ (forall j, (j < k)%nat ->
                  spent (firstn j [letters 16000; lit "fees"])
                        (quarterCeil (reviewLines (lit "Too slow") (lit "2")) + 5)
                  + quarterCeil (nth j [letters 16000; lit "fees"] []) <= 4000)
    /\ ((k < 2)%nat ->
        4000 < spent (firstn k [letters 16000; lit "fees"])
                     (quarterCeil (reviewLines (lit "Too slow") (lit "2")) + 5)
               + quarterCeil (nth k [letters 16000; lit "fees"] [])).
Proof.
  apply (@compileContext_takes_a_prefix (lit "Too slow") (lit "2")
           [letters 16000; lit "fees"]).
  discriminate.
Defined.

Lemma addItems_bound : forall items context estimatedTokens,
  len context <= 4 * estimatedTokens + 13 ->
  len (fst (addItems items context estimatedTokens))
  <= 4 * Z.max estimatedTokens 4002 + 64
  /\ snd (addItems items context estimatedTokens) <= Z.max estimatedTokens 4002.
Proof.
  induction items as [|item rest IH]; intros context estimatedTokens Hinv.
  - cbn [addItems fst snd]. lia.
  - cbn [addItems].
    destruct (Z.ltb_spec 4000 (estimatedTokens + quarterCeil item)) as [Hover|Hfits].
    + cbn [fst snd]. rewrite len_app.
      change (len truncationNote) with 51. lia.
    + pose proof (quarterCeil_bounds item) as [Hq _].
      destruct (IH (context ++ item ++ LF2) (estimatedTokens + quarterCeil item + 2))
        as [Hfst Hsnd].
      { rewrite !len_app. change (len LF2) with 2. lia. }
      lia.
Qed.

(** X20.  The context has at most 16072 characters, or 87 more than the
    two review lines if that is larger, whatever was retrieved; and the
    running estimate ends at 4002 tokens at most, or at the estimate of
    the review lines plus 5. *)
Theorem compileContext_bound review rating items :
  len (fst (compileContext review rating items))
  <= Z.max (len (reviewLines review rating) + 87) 16072
  /\ snd (compileContext review rating items)
     <= Z.max (quarterCeil (reviewLines review rating) + 5) 4002.
Proof.
  unfold compileContext. pose proof (quarterCeil_bounds (reviewLines review rating)).
  destruct items as [|item rest]; [cbn [fst snd]; lia|].
  destruct (@addItems_bound (item :: rest)
              (reviewLines review rating ++ contextHeader)
              (quarterCeil (reviewLines review rating) + 5)) as [Hfst Hsnd].
  { rewrite len_app. change (len contextHeader) with 33. lia. }
  lia.
Qed.

(** X21.  One stored record whose non-empty embedding has another
    dimension than the embedding of the review makes the analysis
    answer 500 with the error [Vectors must have the same length], for
    every review and rating; the language model is not asked. *)
Theorem analyze_fails_on_mismatched_record sv store c r rating q :
  embedReview sv (c :: r) = Ok q ->
  Exists (mismatched q) store ->
  analyze sv (Some store) (Some (c :: r)) (Some rating)
  = ServerError (lit "Vectors must have the same length").
Proof.
  intros Hq Hmis. unfold analyze. rewrite Hq. cbn [bind].
  rewrite findSimilarContexts_rankAll. unfold rankAll.
  now rewrite (scoreAll_mismatch Hmis).
Qed.

Lemma analyze_fails_on_mismatched_record_witness :
  analyze assistant (Some mixedDimensions) (Some (lit "Too slow")) (Some (lit "2"))
  = ServerError (lit "Vectors must have the same length").
Proof.
  apply (@analyze_fails_on_mismatched_record assistant mixedDimensions
           "T"%char (lit "oo slow") (lit "2") query2).
  - reflexivity.
  - apply Exists_cons_tl. apply Exists_cons_hd. split; [reflexivity|discriminate].
Defined.

(** X22.  When the store is absent or none of its records has an
    embedding, the context given to the model is exactly the two review
    lines, without header and without note, and the answer lists no
    context record. *)
Theorem analyze_without_context sv store c r rating q llmOutput :
  (forall cs, store = Some cs -> filter hasEmbedding cs = []) ->
  embedReview sv (c :: r) = Ok q ->
  predict sv (reviewLines (c :: r) rating) = Ok llmOutput ->
  analyze sv store (Some (c :: r)) (Some rating)
  = Analyzed (reviewLines (c :: r) rating) llmOutput [].
Proof.
  intros Hnone Hq Hout. unfold analyze. rewrite Hq. cbn [bind].
  assert (E : findSimilarContexts store q 5 = Ok []).
  { destruct store as [cs|]; [|reflexivity].
    rewrite RetrievalFacts.findSimilarContexts_filter, (Hnone cs eq_refl).
    reflexivity. }
  rewrite E. cbn [bind map compileContext fst]. now rewrite Hout.
Qed.

Lemma analyze_without_context_witness :
  analyze assistant None (Some (lit "Too slow")) (Some (lit "2"))
  = Analyzed (reviewLines (lit "Too slow") (lit "2")) (lit "SENTIMENT: neutral") [].
Proof.
  apply (@analyze_without_context assistant None "T"%char (lit "oo slow") (lit "2")
           query2 (lit "SENTIMENT: neutral")).
  - discriminate.
  - reflexivity.
  - reflexivity.
Defined.

End AnalysisFacts.

(* ================================================================== *)
(** ** What the upload component accepts and shows                     *)
(* ================================================================== *)

Module ClientFacts.
Import JS TextProcessing Db Ingestion Batch Client JSFacts Inputs Samples.
Import IngestionFacts.



(** *** The check of the extension *)

Lemma streq_eq : forall a b, streq a b = true <-> a = b.
Proof.
  induction a as [|x a IH]; intros [|y b]; simpl; split; try congruence.
  - intros H. apply andb_true_iff in H. destruct H as [Hx Hab].
    apply Ascii.eqb_eq in Hx. apply IH in Hab. congruence.
  - intros H. inversion H; subst. apply andb_true_iff. split.
    + apply Ascii.eqb_refl.
    + now apply IH.
Qed.

Lemma includes_In xs s : includes xs s = true <-> In s xs.
Proof.
  unfold includes. rewrite existsb_exists. split.
  - intros [x [Hin Hx]]. apply streq_eq in Hx. now subst.
  - intros Hin. exists s. split; [exact Hin|now apply streq_eq].
Qed.

Lemma startsWith_char s d k :
  startsWith (skipn k s) [d] = true <-> nth_error s k = Some d.
Proof.
  rewrite <- hd_error_skipn. destruct (skipn k s) as [|b t]; simpl.
  - split; discriminate.
  - replace (startsWith t []) with true by (now destruct t).
    rewrite andb_true_r. split.
    + intros H. apply Ascii.eqb_eq in H. now subst.
    + intros H. inversion H. apply Ascii.eqb_refl.
Qed.

Lemma lastIndexOf_down_char s d : forall k,
  (lastIndexOf_down s [d] k = -1
   /\ forall i, (i <= k)%nat -> nth_error s i <> Some d)
  \/ (exists r, lastIndexOf_down s [d] k = Z.of_nat r
                /\ (r <= k)%nat
                /\ nth_error s r = Some d
                /\ forall i, (r < i <= k)%nat -> nth_error s i <> Some d).
Proof.
  induction k as [|k IH]; cbn [lastIndexOf_down].
  - destruct (startsWith (skipn 0 s) [d]) eqn:E.
    + right. exists 0%nat. apply startsWith_char in E. repeat split; auto; lia.
    + left. split; [reflexivity|]. intros i Hi Hd.
      assert (i = 0)%nat by lia. subst i.
      apply startsWith_char in Hd. congruence.
  - destruct (startsWith (skipn (S k) s) [d]) eqn:E.
    + right. exists (S k). apply startsWith_char in E. repeat split; auto; lia.
    + assert (Hk : nth_error s (S k) <> Some d).
      { intros Hd. apply startsWith_char in Hd. congruence. }
      destruct IH as [[Hr Hno]|[r [Hr [Hle [Hd Hno]]]]].
      * left. split; [exact Hr|]. intros i Hi.
        destruct (Nat.eq_dec i (S k)); [now subst|]. apply Hno. lia.
      * right. exists r. repeat split; auto.
        intros i Hi. destruct (Nat.eq_dec i (S k)); [now subst|]. apply Hno. lia.
Qed.

(** [s.lastIndexOf(d)] for a character [d]: [-1] when [d] does not
    occur in [s], else the length of what precedes its last
    occurrence. *)
Lemma lastIndexOf_char s d :
  (lastIndexOf s [d] (len s) = -1 /\ ~ In d s)
  \/ (exists pre suf, s = pre ++ d :: suf /\ ~ In d suf
                      /\ lastIndexOf s [d] (len s) = len pre).
Proof.
  unfold lastIndexOf. destruct s as [|c s']; [left; split; [reflexivity|auto]|].
  set (s := c :: s').
  assert (Hlen : 0 < len s) by (unfold len, s; simpl; lia).
  change (len [d]) with 1.
  replace (Z.min (Z.max (len s) 0) (len s - 1)) with (len s - 1) by lia.
  destruct (Z.ltb_spec (len s - 1) 0); [lia|].
  destruct (lastIndexOf_down_char s d (Z.to_nat (len s - 1)))
    as [[Hr Hno]|[r [Hr [Hle [Hd Hno]]]]].
  - left. split; [exact Hr|]. intros Hin.
    apply In_nth_error in Hin. destruct Hin as [i Hi].
    assert (i < length s)%nat by (apply nth_error_Some; congruence).
    apply (Hno i); [unfold len; lia|exact Hi].
  - right. destruct (nth_error_split s r Hd) as [pre [suf [Hs Hpre]]].
    exists pre, suf. split; [exact Hs|]. split.
    + intros Hin. apply In_nth_error in Hin. destruct Hin as [j Hj].
      assert (j < length suf)%nat by (apply nth_error_Some; congruence).
      apply (Hno (S (r + j))).
      * assert (length s = length pre + S (length suf))%nat
          by (rewrite Hs at 1; rewrite length_app; reflexivity).
        unfold len. lia.
      * rewrite Hs, nth_error_app2 by lia.
        replace (S (r + j) - length pre)%nat with (S j) by lia. exact Hj.
    + rewrite Hr. unfold len. now rewrite Hpre.
Qed.

Lemma substringFrom_split pre d suf :
  substringFrom (pre ++ d :: suf) (len pre) = d :: suf.
Proof.
  unfold substringFrom, len. rewrite length_app. simpl.
  replace (Z.to_nat _) with (length pre + 0)%nat by lia.
  now rewrite skipn_app, Nat.add_0_r, skipn_all, Nat.sub_diag.
Qed.

Lemma substringFrom_none s : substringFrom s (-1) = s.
Proof.
  unfold substringFrom, len.
  now replace (Z.to_nat _) with 0%nat by lia.
Qed.

Lemma last_split_unique (d : ascii) : forall a a' b b',
  a ++ d :: b = a' ++ d :: b' -> ~ In d b -> ~ In d b' -> b = b'.
Proof.
  induction a as [|x a IH]; intros [|y a'] b b' E Hb Hb'; simpl in E.
  - congruence.
  - inversion E; subst. exfalso. apply Hb. apply in_or_app. right. now left.
  - inversion E; subst. exfalso. apply Hb'. apply in_or_app. right. now left.
  - inversion E. eapply IH; eauto.
Qed.

Lemma toLowerCase_dot c : toLowerCase [c] = lit "." -> c = "."%char.
Proof.
  destruct c as [[] [] [] [] [] [] [] []]; vm_compute; intros H;
    solve [reflexivity | discriminate].
Qed.

Lemma toLowerCase_app a b : toLowerCase (a ++ b) = toLowerCase a ++ toLowerCase b.
Proof. unfold toLowerCase. apply map_app. Qed.

Lemma toLowerCase_dotless s : ~ In "."%char s -> ~ In "."%char (toLowerCase s).
Proof.
  induction s as [|c s IH]; intros Hs; [auto|].
  change (toLowerCase (c :: s)) with (toLowerCase [c] ++ toLowerCase s).
  intros Hin. apply in_app_or in Hin. destruct Hin as [Hin|Hin].
  - apply Hs. left.
    destruct (toLowerCase [c]) as [|x [|y l]] eqn:E; try discriminate.
    destruct Hin as [Hx|[]]. subst x. now apply toLowerCase_dot.
  - apply IH; [|exact Hin]. intros H. apply Hs. now right.
Qed.

(** The extension taken from the last dot equals [.x] exactly when the
    lowercased name ends with [.x], for [x] without a dot. *)
Lemma fileExtension_suffix file x :
  ~ In "."%char x ->
  fileExtension file = "."%char :: x
  <-> exists stem, toLowerCase (file_name file) = stem ++ "."%char :: x.
Proof.
  intros Hx. unfold fileExtension.
  destruct (lastIndexOf_char (file_name file) "."%char)
    as [[Hk Hno]|[pre [suf [Hs [Hsuf Hk]]]]].
  - change (lit ".") with ["."%char]. rewrite Hk.
    rewrite substringFrom_none.
    pose proof (toLowerCase_dotless _ Hno) as Hlow. split.
    + intros E. exfalso. apply Hlow. rewrite E. now left.
    + intros [stem E]. exfalso. apply Hlow. rewrite E.
      apply in_or_app. right. now left.
  - change (lit ".") with ["."%char]. rewrite Hk, Hs, substringFrom_split.
    rewrite toLowerCase_app.
    change (toLowerCase ("."%char :: suf)) with ("."%char :: toLowerCase suf).
    pose proof (toLowerCase_dotless _ Hsuf) as Hlow. split.
    + intros E. exists (toLowerCase pre). now rewrite E.
    + intros [stem E]. f_equal. exact (@last_split_unique _ _ _ _ _ E Hlow Hx).
Qed.

Lemma supportedExtensions_shape ext :
  In ext supportedExtensions -> exists x, ext = "."%char :: x /\ ~ In "."%char x.
Proof.
  simpl. intros H.
  repeat (destruct H as [<-|H];
          [eexists; split; [reflexivity|simpl; intuition discriminate]|]).
  contradiction.
Qed.

(** X24.  The component accepts a file exactly when it has at most
    20 MB and either its MIME type is one of the eight supported types
    or its name, in lower case, ends with one of the seven supported
    extensions. *)
Theorem validateFile_accepts_exactly file :
  validateFile file = None
  <-> file_size file <= 20 * 1024 * 1024
      /\ (In (file_type file) supportedTypes
          \/ exists ext stem,
               In ext supportedExtensions
               /\ toLowerCase (file_name file) = stem ++ ext).
Proof.
  assert (Hext : In (fileExtension file) supportedExtensions
                 <-> exists ext stem,
                       In ext supportedExtensions
                       /\ toLowerCase (file_name file) = stem ++ ext).
  { split.
    - intros Hin. exists (fileExtension file).
      destruct (@supportedExtensions_shape _ Hin) as [x [E Hx]].
      destruct (proj1 (@fileExtension_suffix file x Hx) E) as [stem Hstem].
      exists stem. split; [exact Hin|]. now rewrite E.
    - intros [ext [stem [Hin E]]].
      destruct (@supportedExtensions_shape _ Hin) as [x [Ex Hx]]. subst ext.
      rewrite (proj2 (@fileExtension_suffix file x Hx)); [exact Hin|].
      now exists stem. }
  unfold validateFile, validateFileSize, validateFileType.
  change MAX_FILE_SIZE with (20 * 1024 * 1024).
  destruct (Z.ltb_spec (20 * 1024 * 1024) (file_size file)) as [Hbig|Hok].
  - split; [discriminate|lia].
  - destruct (includes supportedTypes (file_type file)) eqn:Ht.
    + cbn [negb andb]. split; [intros _|reflexivity].
      split; [exact Hok|left; now apply includes_In].
    + destruct (includes supportedExtensions (fileExtension file)) eqn:He;
        cbn [negb andb].
      * split; [intros _|reflexivity]. split; [exact Hok|right].
        apply Hext. now apply includes_In.
      * split; [discriminate|]. intros [_ [Hin|Hin]].
        -- apply includes_In in Hin. congruence.
        -- apply Hext in Hin. apply includes_In in Hin. congruence.
Qed.

End ClientFacts.

(* ================================================================== *)
(** ** Several files in one request                                    *)
(* ================================================================== *)

Module ConcurrentFacts.
Import JS TextProcessing Db Ingestion Batch Concurrent JSFacts Inputs Samples.
Import IngestionFacts.

Lemma resumeSlot_items uploads ctx slot :
  resumeSlot uploads ctx slot
  = match itemsAt uploads slot with
    | [] => ctx
    | items => pushAll ctx items
    end.
Proof.
  unfold resumeSlot, itemsAt.
  destruct (nth_error uploads (fst slot)) as [u|]; [|reflexivity].
  destruct (nth_error (upload_chunks u) (snd slot)) as [chunk|]; [|reflexivity].
  unfold uploadResume, fileItems. simpl fst. simpl snd.
  now destruct (embedQuery (upload_env u) (snd slot) chunk).
Qed.

Lemma fold_resumeSlot uploads : forall l ctx,
  appendedTo ctx (fold_left (resumeSlot uploads) l ctx) (flat_map (itemsAt uploads) l).
Proof.
  induction l as [|slot l IH]; intros ctx; [reflexivity|].
  cbn [fold_left flat_map]. rewrite resumeSlot_items.
  destruct (itemsAt uploads slot) as [|x xs] eqn:E; [apply IH|].
  specialize (IH (pushAll ctx (x :: xs))). unfold appendedTo in *.
  destruct (flat_map (itemsAt uploads) l) as [|y ys].
  - rewrite app_nil_r. exact IH.
  - cbn [app]. rewrite IH, pushAll_pushAll. reflexivity.
Qed.

Lemma flat_map_flat_map {A B C : Type} (g : B -> list C) (h : A -> list B) l :
  flat_map g (flat_map h l) = flat_map (fun x => flat_map g (h x)) l.
Proof.
  induction l as [|x l IH]; [reflexivity|].
  simpl. now rewrite flat_map_app, IH.
Qed.

Lemma flat_map_map {A B C : Type} (g : B -> list C) (h : A -> B) l :
  flat_map g (map h l) = flat_map (fun x => g (h x)) l.
Proof. induction l as [|x l IH]; [reflexivity|]. simpl. now rewrite IH. Qed.

Lemma itemsAt_file pre u us :
  Permutation (flat_map (itemsAt (pre ++ u :: us)) (slotsOf (length pre) u))
              (storedBy u).
Proof.
  unfold slotsOf, storedBy. rewrite flat_map_map.
  rewrite <- (Permutation_flat_map _ (@resumed_perm (upload_chunks u)
                                        (seq 0 (length (upload_chunks u)))
                                        (Permutation_refl _))).
  unfold resumed. rewrite flat_map_flat_map.
  erewrite flat_map_ext_in; [apply Permutation_refl|].
  intros i _. unfold itemsAt. simpl fst. simpl snd.
  rewrite nth_error_app2, Nat.sub_diag by lia. simpl.
  destruct (nth_error (upload_chunks u) i); [|reflexivity].
  simpl. now rewrite app_nil_r.
Qed.

Lemma itemsAt_slots : forall us pre,
  Permutation
    (flat_map (itemsAt (pre ++ us))
              (flat_map (fun fu => slotsOf (fst fu) (snd fu))
                        (combine (seq (length pre) (length us)) us)))
    (flat_map storedBy us).
Proof.
  induction us as [|u us IH]; intros pre; [apply Permutation_refl|].
  cbn [length seq combine flat_map]. rewrite flat_map_app.
  apply Permutation_app; [apply itemsAt_file|].
  specialize (IH (pre ++ [u])).
  rewrite <- app_assoc, length_app, Nat.add_1_r in IH. exact IH.
Qed.

(** X25.  When several files of one request are in their chunk stage
    at once, no record is lost and none is stored twice: in whatever
    order the chunk callbacks of all the files resume, the store ends
    as the store before followed by the records of all embedded chunks
    of all files, in some order; with no embedded chunk it is not
    written. *)
Theorem uploadAll_loses_no_record uploads schedule ctx :
  Permutation schedule (slots uploads) ->
  exists items,
    appendedTo ctx (uploadAll uploads schedule ctx) items
    /\ Permutation items (flat_map storedBy uploads).
Proof.
  intros Hperm. exists (flat_map (itemsAt uploads) schedule).
  split; [apply fold_resumeSlot|].
  rewrite (Permutation_flat_map _ Hperm).
  exact (itemsAt_slots uploads []).
Qed.

Lemma uploadAll_loses_no_record_witness :
  exists items,
    appendedTo None (uploadAll twoUploads interleaved None) items
    /\ Permutation items (flat_map storedBy twoUploads).
Proof.
  apply (@uploadAll_loses_no_record twoUploads interleaved None).
  change (slots twoUploads) with [(0, 0); (0, 1); (0, 2); (1, 0); (1, 1)]%nat.
  unfold interleaved.
  apply (@Permutation_cons_app _ _ [(0, 0); (0, 1); (0, 2); (1, 0)]%nat [] (1, 1)%nat).
  apply (@Permutation_cons_app _ _ [(0, 0); (0, 1)]%nat [(1, 0)]%nat (0, 2)%nat).
  apply perm_skip.
  apply (@Permutation_cons_app _ _ [(0, 1)]%nat [] (1, 0)%nat).
  apply Permutation_refl.
Defined.

End ConcurrentFacts.

(* ================================================================== *)
(** ** Where the chunker cuts                                          *)
(* ================================================================== *)

Module BreakFacts.
Import JS TextProcessing JSFacts TextProcessingFacts ClientFacts Inputs.

Lemma lastIndexOf_down_found s p : forall k r,
  lastIndexOf_down s p k = r -> 0 <= r ->
  startsWith (skipn (Z.to_nat r) s) p = true.
Proof.
  induction k as [|k IH]; intros r Hr Hpos; cbn [lastIndexOf_down] in Hr.
  - destruct (startsWith (skipn 0 s) p) eqn:E; [|lia].
    subst r. exact E.
  - destruct (startsWith (skipn (S k) s) p) eqn:E.
    + subst r. now rewrite Nat2Z.id.
    + now apply IH.
Qed.

Lemma lastIndexOf_found s p pos :
  0 <= lastIndexOf s p pos ->
  startsWith (skipn (Z.to_nat (lastIndexOf s p pos)) s) p = true.
Proof.
  unfold lastIndexOf.
  destruct (Z.min (Z.max pos 0) (len s - len p) <? 0); [lia|].
  intros H. now apply (@lastIndexOf_down_found s p _ _ eq_refl).
Qed.

Lemma startsWith_two s a b k :
  startsWith (skipn k s) [a; b] = true ->
  nth_error s k = Some a /\ nth_error s (S k) = Some b.
Proof.
  intros H. rewrite <- !hd_error_skipn.
  replace (skipn (S k) s) with (skipn 1 (skipn k s))
    by (rewrite skipn_skipn; f_equal).
  destruct (skipn k s) as [|x [|y t]]; simpl in H; try discriminate.
  - now rewrite andb_false_r in H.
  - apply andb_true_iff in H. destruct H as [Hx H].
    apply andb_true_iff in H. destruct H as [Hy _].
    apply Ascii.eqb_eq in Hx, Hy. now subst.
Qed.

Lemma lastIndexOf_char_ge s d pos j :
  0 <= pos < len s -> (Z.to_nat j <= Z.to_nat pos)%nat ->
  nth_error s (Z.to_nat j) = Some d ->
  0 <= j -> j <= lastIndexOf s [d] pos.
Proof.
  intros Hpos Hj Hd Hj0. unfold lastIndexOf. change (len [d]) with 1.
  replace (Z.min (Z.max pos 0) (len s - 1)) with pos by lia.
  destruct (Z.ltb_spec pos 0); [lia|].
  destruct (lastIndexOf_down_char s d (Z.to_nat pos))
    as [[Hr Hno]|[r [Hr [Hle [_ Hno]]]]].
  - exfalso. exact (Hno _ Hj Hd).
  - rewrite Hr. destruct (Nat.le_gt_cases (Z.to_nat j) r) as [|Hgt]; [lia|].
    exfalso. apply (Hno (Z.to_nat j)); [lia|exact Hd].
Qed.

(** X26.  The chunker does not cut inside a word when it can avoid it:
    if the window of a chunk that does not reach the end of the text
    holds a space after its first character, the chunk ends just after
    a space or a line feed (the end of a paragraph break, of a sentence
    break, or the last space of the window), and its end lies after its
    start and at most two characters after the window. *)
Theorem chunkEnd_at_word_boundary text chunkSize startIndex j :
  0 <= startIndex -> 0 < chunkSize ->
  startIndex + chunkSize < len text ->
  startIndex < j <= startIndex + chunkSize ->
  nth_error text (Z.to_nat j) = Some " "%char ->
  startIndex < chunkEnd text chunkSize startIndex <= startIndex + chunkSize + 2
  /\ (nth_error text (Z.to_nat (chunkEnd text chunkSize startIndex - 1))
      = Some " "%char
      \/ nth_error text (Z.to_nat (chunkEnd text chunkSize startIndex - 1))
         = Some "010"%char).
Proof.
  intros Hs HC Hin Hj Hsp.
  pose proof (chunkEnd_bounds text Hs HC) as Hb.
  split; [lia|]. unfold chunkEnd.
  destruct (Z.ltb_spec (startIndex + chunkSize) (len text)) as [_|]; [|lia].
  destruct ((startIndex <? lastIndexOf text LF2 (startIndex + chunkSize))
            && (startIndex + chunkSize - 200
                <? lastIndexOf text LF2 (startIndex + chunkSize))) eqn:Ep.
  { apply andb_true_iff in Ep. destruct Ep as [Ep _]. apply Z.ltb_lt in Ep.
    right.
    assert (H0 : 0 <= lastIndexOf text LF2 (startIndex + chunkSize)) by lia.
    destruct (@startsWith_two text "010"%char "010"%char _
                (@lastIndexOf_found text LF2 _ H0)) as [_ H].
    rewrite <- H. f_equal. lia. }
  destruct ((startIndex <? lastIndexOf text DOT_SP (startIndex + chunkSize))
            && (startIndex + chunkSize - 100
                <? lastIndexOf text DOT_SP (startIndex + chunkSize))) eqn:Es.
  { apply andb_true_iff in Es. destruct Es as [Es _]. apply Z.ltb_lt in Es.
    left.
    assert (H0 : 0 <= lastIndexOf text DOT_SP (startIndex + chunkSize)) by lia.
    destruct (@startsWith_two text "."%char " "%char _
                (@lastIndexOf_found text DOT_SP _ H0)) as [_ H].
    rewrite <- H. f_equal. lia. }
  assert (Hw : j <= lastIndexOf text SP (startIndex + chunkSize)).
  { apply lastIndexOf_char_ge; try lia. exact Hsp. }
  destruct (Z.ltb_spec startIndex (lastIndexOf text SP (startIndex + chunkSize)));
    [|lia].
  left.
  assert (H0 : 0 <= lastIndexOf text SP (startIndex + chunkSize)) by lia.
  pose proof (@lastIndexOf_found text SP (startIndex + chunkSize) H0) as Hf.
  apply (proj1 (startsWith_char text " "%char _)) in Hf.
  rewrite <- Hf. f_equal. lia.
Qed.

Lemma chunkEnd_at_word_boundary_witness :
  0 < chunkEnd (lit "refund policy terms") 10 0 <= 0 + 10 + 2
  /\ (nth_error (lit "refund policy terms")
                (Z.to_nat (chunkEnd (lit "refund policy terms") 10 0 - 1))
      = Some " "%char
      \/ nth_error (lit "refund policy terms")
                   (Z.to_nat (chunkEnd (lit "refund policy terms") 10 0 - 1))
         = Some "010"%char).
Proof.
  apply (@chunkEnd_at_word_boundary (lit "refund policy terms") 10 0 6).
  - lia.
  - lia.
  - vm_compute. reflexivity.
  - lia.
  - reflexivity.
Defined.

End BreakFacts.

(* ================================================================== *)
(** ** The text made of a spreadsheet                                  *)
(* ================================================================== *)

Module RenderingFacts.
Import JS TextProcessing Ingestion Extraction JSFacts IngestionFacts Inputs Samples.

Lemma renderRow_agree first rowIndex row row' :
  agreeOn first row row' ->
  renderRow (keysOf first) rowIndex row = renderRow (keysOf first) rowIndex row'.
Proof.
  intros H. unfold renderRow. do 4 f_equal.
  apply flat_map_ext_in. intros header Hin. now rewrite (H header Hin).
Qed.

Lemma renderRows_from first : forall rest rest' k,
  Forall2 (agreeOn first) rest rest' ->
  flat_map (fun ir => renderRow (keysOf first) (fst ir) (snd ir))
           (combine (seq k (length rest)) rest)
  = flat_map (fun ir => renderRow (keysOf first) (fst ir) (snd ir))
             (combine (seq k (length rest')) rest').
Proof.
  intros rest rest' k H. revert k.
  induction H as [|row row' rest rest' Hrow _ IH]; intros k; [reflexivity|].
  cbn [length seq combine flat_map]. simpl fst. simpl snd.
  now rewrite (renderRow_agree k Hrow), (IH (S k)).
Qed.

(** A member of [Object.prototype] is found under a header of its
    name: for a first row with the column [toString], a row without
    that column prints the inherited function. *)
Lemma renderRow_inherited_member :
  renderRow [lit "toString"] 1 (plain [(lit "plan", Some (lit "pro"))])
  = lit "Row 2: toString: function toString() { [native code] }; " ++ LF.
Proof. reflexivity. Qed.

(** X27.  Only the columns of the first row reach the text made of a
    sheet or of a CSV file: two tables with the same first row whose
    further rows agree in what [row[header]] gives for every key
    [header] of the first row give the same text, whatever the further
    rows hold under other keys. *)
Theorem rendering_uses_first_row_columns first rest rest' name :
  Forall2 (agreeOn first) rest rest' ->
  renderCsv (first :: rest) = renderCsv (first :: rest')
  /\ renderSheet (mkSheet name (first :: rest))
     = renderSheet (mkSheet name (first :: rest')).
Proof.
  intros H.
  assert (Hlen : length rest = length rest') by (eapply Forall2_length; eauto).
  assert (Hrows : renderRows (first :: rest) = renderRows (first :: rest')).
  { unfold renderRows. cbn [length seq combine flat_map].
    now rewrite (renderRows_from 1 H). }
  split.
  - unfold renderCsv. rewrite Hrows. cbn [length]. now rewrite Hlen.
  - unfold renderSheet. cbn [jsonData sheetName]. now rewrite Hrows.
Qed.

(** The second row has a column [note] that the first row lacks. *)
Lemma rendering_uses_first_row_columns_witness :
  renderCsv (plain [(lit "plan", Some (lit "basic"))]
             :: [plain [(lit "plan", Some (lit "pro"));
                        (lit "note", Some (lit "beta"))]])
  = renderCsv (plain [(lit "plan", Some (lit "basic"))]
               :: [plain [(lit "plan", Some (lit "pro"))]])
  /\ renderSheet
       (mkSheet (lit "Fees")
                (plain [(lit "plan", Some (lit "basic"))]
                 :: [plain [(lit "plan", Some (lit "pro"));
                            (lit "note", Some (lit "beta"))]]))
     = renderSheet
         (mkSheet (lit "Fees")
                  (plain [(lit "plan", Some (lit "basic"))]
                   :: [plain [(lit "plan", Some (lit "pro"))]])).
Proof.
  apply (@rendering_uses_first_row_columns
           (plain [(lit "plan", Some (lit "basic"))])
           [plain [(lit "plan", Some (lit "pro")); (lit "note", Some (lit "beta"))]]
           [plain [(lit "plan", Some (lit "pro"))]] (lit "Fees")).
  constructor; [|constructor].
  intros header [<-|[]]. reflexivity.
Defined.

End RenderingFacts.
